(** * Watson MCP Router: a shallow embedding of the capability-federation core

    The development follows the TypeScript sources of the router:
    - [serverManager.ts] (buffered revision): [CustomStdioClientTransport]
      and [ServerManager];
    - [index.ts]: [convertJsonSchemaToZod], the registration loops of [main]
      and the three proxy handlers.

    JavaScript strings are sequences of UTF-16 code units; JSON values are a
    first-order datatype; the runtime services the code calls
    ([Buffer.toString], [JSON.parse], the child processes) are parameters of
    the model, with executable reference instances further down. *)

From Stdlib Require Import String Ascii DecimalString NArith ZArith Lia Bool Arith
  FinFun List.
From Stdlib Require DecimalPos DecimalZ.
From Equations Require Import Equations.
Import ListNotations.

Set Implicit Arguments.
Set Warnings "-register-all".

(* ===================================================================== *)
(** ** JavaScript strings                                                  *)
(* ===================================================================== *)

Module JS.

(** A string is its sequence of UTF-16 code units. *)
Definition jsstring := list N.

(** String literals of the source, written with Rocq's [string] syntax
    (one code unit per character). *)
Definition lit (s : string) : jsstring :=
  map N_of_ascii (list_ascii_of_string s).

Definition jsstring_dec : forall a b : jsstring, {a = b} + {a <> b} :=
  list_eq_dec N.eq_dec.

(** [a === b] on strings. *)
Fixpoint streq (a b : jsstring) : bool :=
  match a, b with
  | [], [] => true
  | x :: a', y :: b' => N.eqb x y && streq a' b'
  | _, _ => false
  end.

(** The line feed, ['\n']. *)
Definition LF : N := 10%N.

(** The double quote. *)
Definition QUOTE : N := 34%N.

(** A literal that holds double quotes, written with an apostrophe for
    each of them. *)
Definition quoted (s : string) : jsstring :=
  map (fun c => if N.eqb c 39 then QUOTE else c) (lit s).

(** [s.indexOf(c)] for a one-character search string; [None] is JavaScript's
    [-1]. *)
Fixpoint indexOf (c : N) (s : jsstring) : option nat :=
  match s with
  | [] => None
  | x :: r => if N.eqb x c then Some 0 else option_map S (indexOf c r)
  end.

(** [s.substring(start, end)]: both indices are clamped to the length and
    swapped when out of order; a missing [end] is the length. *)
Definition substring (s : jsstring) (start : nat) (end_ : option nat) : jsstring :=
  let len := length s in
  let a := Nat.min start len in
  let b := match end_ with None => len | Some e => Nat.min e len end in
  let from := Nat.min a b in
  let to := Nat.max a b in
  firstn (to - from) (skipn from s).

(** White space and line terminators stripped by [String.prototype.trim]. *)
Definition isWhiteSpace (c : N) : bool :=
  ((9 <=? c) && (c <=? 13) || (c =? 32) || (c =? 160) || (c =? 5760)
   || (8192 <=? c) && (c <=? 8202) || (c =? 8232) || (c =? 8233)
   || (c =? 8239) || (c =? 8287) || (c =? 12288) || (c =? 65279))%N.

Fixpoint trimStart (s : jsstring) : jsstring :=
  match s with
  | [] => []
  | c :: r => if isWhiteSpace c then trimStart r else s
  end.

Definition trimEnd (s : jsstring) : jsstring := rev (trimStart (rev s)).

Definition trim (s : jsstring) : jsstring := trimEnd (trimStart s).

(** A thrown value, seen through the only member the handlers read:
    [error.message] (absent on values that are not [Error]s). *)
Record JsError := { message : option jsstring }.

Definition mkError (msg : jsstring) : JsError := {| message := Some msg |}.

(** [error.message || fallback]: the fallback replaces an absent or empty
    message. *)
Definition message_or (e : JsError) (fallback : jsstring) : jsstring :=
  match message e with
  | Some (c :: r) => c :: r
  | _ => fallback
  end.

(** The settlement of a promise, or the completion of a call that may
    throw. *)
Inductive outcome (A : Type) : Type :=
| Resolved (a : A)
| Rejected (e : JsError).
Arguments Resolved {A} a.
Arguments Rejected {A} e.

End JS.
Import JS.

(* ===================================================================== *)
(** ** JSON values                                                         *)
(* ===================================================================== *)

Module Json.

(** Values produced by [JSON.parse]. Numbers are kept on the integers; an
    object is the list of its members in order. *)
Inductive json : Type :=
| JNull
| JBool (b : bool)
| JNum (z : Z)
| JStr (s : jsstring)
| JArr (items : list json)
| JObj (members : list (jsstring * json)).

(** First member with the given key. *)
Fixpoint assoc (k : jsstring) (l : list (jsstring * json)) : option json :=
  match l with
  | [] => None
  | (k', v) :: r => if streq k' k then Some v else assoc k r
  end.

(** [o[k] = v] on the member list: the existing member keeps its place,
    a new one goes last. *)
Fixpoint assoc_set (k : jsstring) (v : json) (l : list (jsstring * json))
  : list (jsstring * json) :=
  match l with
  | [] => [(k, v)]
  | (k', v') :: r =>
      if streq k' k then (k', v) :: r else (k', v') :: assoc_set k v r
  end.

(** [v.k] for a value [v] that is neither [null] nor [undefined] and a key
    that no prototype defines; [None] is [undefined]. *)
Definition get (v : json) (k : jsstring) : option json :=
  match v with
  | JObj l => assoc k l
  | _ => None
  end.

(** Truthiness of a value in a condition. *)
Definition truthy (v : json) : bool :=
  match v with
  | JNull => false
  | JBool b => b
  | JNum z => negb (Z.eqb z 0)
  | JStr s => match s with [] => false | _ => true end
  | JArr _ | JObj _ => true
  end.

Definition truthy_opt (v : option json) : bool :=
  match v with
  | None => false
  | Some x => truthy x
  end.

Fixpoint json_eqb (a b : json) {struct a} : bool :=
  match a, b with
  | JNull, JNull => true
  | JBool x, JBool y => Bool.eqb x y
  | JNum x, JNum y => Z.eqb x y
  | JStr x, JStr y => streq x y
  | JArr xs, JArr ys =>
      (fix go (xs ys : list json) : bool :=
         match xs, ys with
         | [], [] => true
         | x :: xs', y :: ys' => json_eqb x y && go xs' ys'
         | _, _ => false
         end) xs ys
  | JObj xs, JObj ys =>
      (fix go (xs ys : list (jsstring * json)) : bool :=
         match xs, ys with
         | [], [] => true
         | (k, x) :: xs', (k', y) :: ys' =>
             streq k k' && json_eqb x y && go xs' ys'
         | _, _ => false
         end) xs ys
  | _, _ => false
  end.

(** Positions inside a value: a member name or an array index. *)
Inductive step : Type :=
| Key (k : jsstring)
| Idx (i : nat).

Definition path := list step.

Definition child (v : json) (s : step) : option json :=
  match s, v with
  | Key k, JObj l => assoc k l
  | Idx i, JArr l => nth_error l i
  | _, _ => None
  end.

(** The value found at a path, if the path exists. *)
Fixpoint lookup (v : json) (p : path) : option json :=
  match p with
  | [] => Some v
  | s :: p' =>
      match child v s with
      | Some w => lookup w p'
      | None => None
      end
  end.

End Json.
Import Json.

(* ===================================================================== *)
(** ** CustomStdioClientTransport                                          *)
(* ===================================================================== *)

Module Transport.

(** What the upper layer observes: a call of the message callback or a
    call of the error callback (with the text of the [Error]). *)
Inductive event : Type :=
| OnMessage (message : json)
| OnError (text : jsstring).

(** The fields of the class the data handler uses. The stream ends are
    not part of the state; a callback field is [true] once its setter has
    installed a callback (callbacks are taken to return normally). *)
Record CustomStdioClientTransport := {
  _buffer : jsstring;
  _onmessageCallback : bool;
  _onerrorCallback : bool
}.

(** The transport right after its constructor. *)
Definition new_transport : CustomStdioClientTransport :=
  {| _buffer := []; _onmessageCallback := false; _onerrorCallback := false |}.

Definition set_onmessage (t : CustomStdioClientTransport) :=
  {| _buffer := _buffer t; _onmessageCallback := true;
     _onerrorCallback := _onerrorCallback t |}.

Definition set_onerror (t : CustomStdioClientTransport) :=
  {| _buffer := _buffer t; _onmessageCallback := _onmessageCallback t;
     _onerrorCallback := true |}.

Definition with_buffer (t : CustomStdioClientTransport) (b : jsstring) :=
  {| _buffer := b; _onmessageCallback := _onmessageCallback t;
     _onerrorCallback := _onerrorCallback t |}.

(** The condition of the [structuredContent] correction:
    [message && message.jsonrpc === "2.0" && message.result &&
     message.result.structuredContent === null]. *)
Definition needs_correction (message : json) : bool :=
  truthy message
  && match get message (lit "jsonrpc") with
     | Some (JStr v) => streq v (lit "2.0")
     | _ => false
     end
  && truthy_opt (get message (lit "result"))
  && match get message (lit "result") with
     | Some result =>
         match get result (lit "structuredContent") with
         | Some JNull => true
         | _ => false
         end
     | None => false
     end.

(** [message.result.structuredContent = {}], as an update of the value. *)
Definition assign_structuredContent (message : json) : json :=
  match message with
  | JObj members =>
      match assoc (lit "result") members with
      | Some (JObj rmembers) =>
          JObj (assoc_set (lit "result")
                  (JObj (assoc_set (lit "structuredContent") (JObj []) rmembers))
                  members)
      | _ => message
      end
  | _ => message
  end.

Definition correct (message : json) : json :=
  if needs_correction message then assign_structuredContent message
  else message.

(** The text of the [Error] handed to the error callback. *)
Definition parse_failure (line : jsstring) : jsstring :=
  lit "Failed to parse message from child process: " ++ [QUOTE] ++ line ++ [QUOTE].

Section Handler.

(** [JSON.parse], with [None] for a thrown [SyntaxError], and the decoding
    [data.toString()] of a chunk of bytes. *)
Variable JSON_parse : jsstring -> option json.
Variable toString : list N -> jsstring.

(** The body of the loop for one non-empty trimmed line: the [try] block
    and its [catch]. *)
Definition process_line (t : CustomStdioClientTransport) (line : jsstring)
  : list event :=
  match JSON_parse line with
  | Some message =>
      if _onmessageCallback t then [OnMessage (correct message)] else []
  | None =>
      if _onerrorCallback t then [OnError (parse_failure line)] else []
  end.

(** Remembers the value a [with] clause scrutinises. *)
Definition inspect {A : Type} (a : A) : {b : A | a = b} := exist _ a eq_refl.

(** The [while] loop over the buffer: the events it raises and the buffer
    it leaves. *)
Equations? process_buffer (t : CustomStdioClientTransport) (buffer : jsstring)
  : list event * jsstring by wf (length buffer) lt :=
  process_buffer t buffer with inspect (indexOf LF buffer) := {
    | exist _ None _ => ([], buffer)
    | exist _ (Some newlineIndex) Hidx =>
        let line := trim (substring buffer 0 (Some newlineIndex)) in
        let rest := substring buffer (newlineIndex + 1) None in
        let r := process_buffer t rest in
        ((match line with
          | [] => []
          | _ => process_line t line
          end) ++ fst r, snd r) }.
Proof.
  assert (Hlt : forall (b : jsstring) i, indexOf LF b = Some i -> i < length b).
  { clear. induction b as [|x b IH]; simpl; intros i Hi; [discriminate|].
    destruct (N.eqb x LF).
    - injection Hi as <-. lia.
    - destruct (indexOf LF b) as [j|] eqn:Ej; simpl in Hi; [|discriminate].
      injection Hi as <-. specialize (IH j eq_refl). lia. }
  specialize (Hlt _ _ Hidx).
  subst rest. unfold substring. cbv zeta.
  rewrite length_firstn, length_skipn. lia.
Defined.

(** The ['data'] handler: append the decoded chunk, then drain the
    buffer. *)
Definition on_data (t : CustomStdioClientTransport) (data : list N)
  : list event * CustomStdioClientTransport :=
  let r := process_buffer t (_buffer t ++ toString data) in
  (fst r, with_buffer t (snd r)).

(** A sequence of ['data'] events. *)
Fixpoint feed (t : CustomStdioClientTransport) (chunks : list (list N))
  : list event * CustomStdioClientTransport :=
  match chunks with
  | [] => ([], t)
  | data :: more =>
      let r1 := on_data t data in
      let r2 := feed (snd r1) more in
      (fst r1 ++ fst r2, snd r2)
  end.

(** The messages handed to the message callback, in order. *)
Fixpoint delivered (evs : list event) : list json :=
  match evs with
  | [] => []
  | OnMessage m :: r => m :: delivered r
  | OnError _ :: r => delivered r
  end.

(** The texts handed to the error callback, in order. *)
Fixpoint reported (evs : list event) : list jsstring :=
  match evs with
  | [] => []
  | OnMessage _ :: r => reported r
  | OnError e :: r => e :: reported r
  end.

End Handler.

(** *** The outbound side: [send] and [close] *)

(** The writable stream the transport holds (the child's stdin): whether
    [stream.writable] is still true, and everything [write] has been
    given. *)
Record Writable := {
  writable : bool;
  written : jsstring
}.

(** The two ends of the transport. *)
Record Streams := {
  _input_destroyed : bool;
  _output : Writable
}.

(** How the promise of [send] settles. *)
Inductive SendResult : Type :=
| SendResolved
| SendResolvedOnDrain
| SendRejected (e : JsError).

Definition not_writable : JsError :=
  mkError (lit "[CustomStdioClientTransport] Child stdin stream is not writable.").

Section Sending.

(** [JSON.stringify], and the boolean [write] returns for a stream and a
    chunk (false when the chunk fills the stream's buffer). *)
Variable JSON_stringify : json -> jsstring.
Variable write_returns : Writable -> jsstring -> bool.

(** [stream.write(chunk)]. *)
Definition write (out : Writable) (chunk : jsstring) : bool * Writable :=
  (write_returns out chunk,
   {| writable := writable out; written := written out ++ chunk |}).

(** [send(message)]. *)
Definition send (s : Streams) (message : json) : SendResult * Streams :=
  let messageString := JSON_stringify message in
  if negb (writable (_output s)) then (SendRejected not_writable, s)
  else
    let w := write (_output s) (messageString ++ [LF]) in
    (if negb (fst w) then SendResolvedOnDrain else SendResolved,
     {| _input_destroyed := _input_destroyed s; _output := snd w |}).

(** A sequence of [send] calls. *)
Fixpoint send_all (s : Streams) (messages : list json)
  : list SendResult * Streams :=
  match messages with
  | [] => ([], s)
  | message :: more =>
      let r1 := send s message in
      let r2 := send_all (snd r1) more in
      (fst r1 :: fst r2, snd r2)
  end.

End Sending.

(** [close()]: the input is destroyed and the output ended, after which
    it is no longer writable. *)
Definition close (s : Streams) : Streams :=
  {| _input_destroyed := true;
     _output := {| writable := false; written := written (_output s) |} |}.

(** The first revision of the ['data'] handler, kept in the repository
    next to the buffered one: it has no buffer, splits every chunk on its
    own and runs the whole chunk inside one [try]. *)
Module Legacy.

(** [text.split('\n')]. *)
Fixpoint split (text : jsstring) : list jsstring :=
  match text with
  | [] => [[]]
  | c :: r =>
      if N.eqb c LF then [] :: split r
      else match split r with
           | [] => [[c]]
           | first :: others => (c :: first) :: others
           end
  end.

(** [filter(Boolean)] on strings: the empty ones go. *)
Definition nonempty (l : jsstring) : bool :=
  match l with
  | [] => false
  | _ => true
  end.

Section LegacyHandler.
Variable JSON_parse : jsstring -> option json.
Variable toString : list N -> jsstring.

(** The [forEach] inside the [try]: the first line that does not parse
    ends it. *)
Fixpoint each (onmessage : bool) (messages : list jsstring) : list event * bool :=
  match messages with
  | [] => ([], true)
  | msg :: more =>
      match JSON_parse msg with
      | Some message =>
          let r := each onmessage more in
          ((if onmessage then [OnMessage message] else []) ++ fst r, snd r)
      | None => ([], false)
      end
  end.

Definition on_data (t : CustomStdioClientTransport) (data : list N) : list event :=
  let r := each (_onmessageCallback t) (filter nonempty (split (toString data))) in
  if snd r then fst r
  else fst r ++
       (if _onerrorCallback t
        then [OnError (lit "Failed to parse message from child process: "
                         ++ toString data)]
        else []).

End LegacyHandler.
End Legacy.

End Transport.
Import Transport.

(* ===================================================================== *)
(** ** Reference instances of the runtime services                         *)
(* ===================================================================== *)

Module Reference.

(** *** [Buffer.prototype.toString()]: UTF-8 decoding with replacement *)

(** The decoder between two bytes: the code point under construction,
    the continuation bytes still needed, and the range allowed for the
    next byte. *)
Record utf8_state := {
  code_point : N;
  bytes_needed : nat;
  lower : N;
  upper : N
}.

Definition utf8_init : utf8_state :=
  {| code_point := 0; bytes_needed := 0; lower := 128; upper := 191 |}.

Definition REPLACEMENT : N := 65533%N.

(** A code point as UTF-16 code units. *)
Definition utf16 (cp : N) : jsstring :=
  (if cp <? 65536 then [cp]
   else [55296 + N.shiftr (cp - 65536) 10; 56320 + N.land (cp - 65536) 1023])%N.

(** A byte arriving when no sequence is open. *)
Definition utf8_lead (b : N) : jsstring * utf8_state :=
  (if b <=? 127 then ([b], utf8_init)
   else if (194 <=? b) && (b <=? 223) then
     ([], {| code_point := N.land b 31; bytes_needed := 1;
             lower := 128; upper := 191 |})
   else if (224 <=? b) && (b <=? 239) then
     ([], {| code_point := N.land b 15; bytes_needed := 2;
             lower := if b =? 224 then 160 else 128;
             upper := if b =? 237 then 159 else 191 |})
   else if (240 <=? b) && (b <=? 244) then
     ([], {| code_point := N.land b 7; bytes_needed := 3;
             lower := if b =? 240 then 144 else 128;
             upper := if b =? 244 then 143 else 191 |})
   else ([REPLACEMENT], utf8_init))%N.

Definition utf8_step (st : utf8_state) (b : N) : jsstring * utf8_state :=
  match bytes_needed st with
  | 0 => utf8_lead b
  | S n =>
      if ((lower st <=? b) && (b <=? upper st))%N then
        let cp := N.lor (N.shiftl (code_point st) 6) (N.land b 63) in
        match n with
        | 0 => (utf16 cp, utf8_init)
        | _ => ([], {| code_point := cp; bytes_needed := n;
                       lower := 128; upper := 191 |})
        end
      else
        let r := utf8_lead b in (REPLACEMENT :: fst r, snd r)
  end.

Fixpoint utf8_run (st : utf8_state) (bytes : list N) : jsstring :=
  match bytes with
  | [] => match bytes_needed st with 0 => [] | _ => [REPLACEMENT] end
  | b :: r => let o := utf8_step st b in fst o ++ utf8_run (snd o) r
  end.

(** Each chunk is decoded on its own, from the initial state. *)
Definition toString (data : list N) : jsstring := utf8_run utf8_init data.

(** *** [JSON.parse] on the grammar without fractions and exponents *)

Definition isJsonWs (c : N) : bool :=
  ((c =? 32) || (c =? 9) || (c =? 10) || (c =? 13))%N.

Fixpoint skip_ws (s : jsstring) : jsstring :=
  match s with
  | [] => []
  | c :: r => if isJsonWs c then skip_ws r else s
  end.

Definition isDigit (c : N) : bool := ((48 <=? c) && (c <=? 57))%N.

Definition hexval (c : N) : option N :=
  (if (48 <=? c) && (c <=? 57) then Some (c - 48)
   else if (97 <=? c) && (c <=? 102) then Some (c - 87)
   else if (65 <=? c) && (c <=? 70) then Some (c - 55)
   else None)%N.

(** The character a single-letter escape stands for. *)
Definition unescape (c : N) : option N :=
  (if c =? 34 then Some 34 else if c =? 92 then Some 92
   else if c =? 47 then Some 47 else if c =? 98 then Some 8
   else if c =? 102 then Some 12 else if c =? 110 then Some 10
   else if c =? 114 then Some 13 else if c =? 116 then Some 9
   else None)%N.

(** The characters of a string literal after its opening quote, up to the
    closing quote; [acc] holds the decoded characters in reverse. *)
Fixpoint parse_chars (s : jsstring) (acc : jsstring) : option (jsstring * jsstring) :=
  match s with
  | [] => None
  | c :: r =>
      if (c =? 34)%N then Some (rev acc, r)
      else if (c =? 92)%N then
        match r with
        | [] => None
        | e :: r' =>
            if (e =? 117)%N then
              match r' with
              | h1 :: h2 :: h3 :: h4 :: r'' =>
                  match hexval h1, hexval h2, hexval h3, hexval h4 with
                  | Some a, Some b, Some c', Some d =>
                      parse_chars r'' ((((a * 16 + b) * 16 + c') * 16 + d)%N :: acc)
                  | _, _, _, _ => None
                  end
              | _ => None
              end
            else
              match unescape e with
              | Some x => parse_chars r' (x :: acc)
              | None => None
              end
        end
      else if (c <? 32)%N then None
      else parse_chars r (c :: acc)
  end.

Fixpoint parse_digits (s : jsstring) (acc : Z) : Z * jsstring :=
  match s with
  | c :: r => if isDigit c then parse_digits r (acc * 10 + Z.of_N (c - 48)) else (acc, s)
  | [] => (acc, [])
  end.

(** An integer literal: no leading zero, and nothing of a fraction or an
    exponent behind it. *)
Definition parse_int (s : jsstring) : option (Z * jsstring) :=
  match s with
  | c :: r =>
      if isDigit c then
        let res := if (c =? 48)%N then (0%Z, r) else parse_digits s 0 in
        match snd res with
        | d :: _ =>
            if isDigit d || (d =? 46)%N || (d =? 101)%N || (d =? 69)%N
            then None else Some res
        | [] => Some res
        end
      else None
  | [] => None
  end.

Definition parse_number (s : jsstring) : option (json * jsstring) :=
  match s with
  | c :: r =>
      if (c =? 45)%N then
        match parse_int r with
        | Some (z, r') => Some (JNum (- z), r')
        | None => None
        end
      else
        match parse_int s with
        | Some (z, r') => Some (JNum z, r')
        | None => None
        end
  | [] => None
  end.

(** [s] starts with the keyword [k]: the rest of [s]. *)
Fixpoint expect (k s : jsstring) : option jsstring :=
  match k, s with
  | [], _ => Some s
  | a :: k', b :: s' => if (a =? b)%N then expect k' s' else None
  | _ :: _, [] => None
  end.

Fixpoint parse_value (fuel : nat) (s : jsstring) : option (json * jsstring) :=
  match fuel with
  | 0 => None
  | S f =>
      match skip_ws s with
      | [] => None
      | c :: r =>
          if (c =? 123)%N then
            match skip_ws r with
            | c' :: r' =>
                if (c' =? 125)%N then Some (JObj [], r') else parse_members f (c' :: r') []
            | [] => None
            end
          else if (c =? 91)%N then
            match skip_ws r with
            | c' :: r' =>
                if (c' =? 93)%N then Some (JArr [], r') else parse_elements f (c' :: r') []
            | [] => None
            end
          else if (c =? 34)%N then
            match parse_chars r [] with
            | Some (str, r') => Some (JStr str, r')
            | None => None
            end
          else if (c =? 116)%N then
            match expect (lit "rue") r with Some r' => Some (JBool true, r') | None => None end
          else if (c =? 102)%N then
            match expect (lit "alse") r with Some r' => Some (JBool false, r') | None => None end
          else if (c =? 110)%N then
            match expect (lit "ull") r with Some r' => Some (JNull, r') | None => None end
          else parse_number (c :: r)
      end
  end
with parse_elements (fuel : nat) (s : jsstring) (acc : list json)
  : option (json * jsstring) :=
  match fuel with
  | 0 => None
  | S f =>
      match parse_value f s with
      | Some (v, r) =>
          match skip_ws r with
          | c :: r' =>
              if (c =? 44)%N then parse_elements f r' (v :: acc)
              else if (c =? 93)%N then Some (JArr (rev (v :: acc)), r')
              else None
          | [] => None
          end
      | None => None
      end
  end
with parse_members (fuel : nat) (s : jsstring) (acc : list (jsstring * json))
  : option (json * jsstring) :=
  match fuel with
  | 0 => None
  | S f =>
      match skip_ws s with
      | q :: r0 =>
          if (q =? 34)%N then
            match parse_chars r0 [] with
            | Some (k, r1) =>
                match skip_ws r1 with
                | c :: r2 =>
                    if (c =? 58)%N then
                      match parse_value f r2 with
                      | Some (v, r3) =>
                          match skip_ws r3 with
                          | d :: r4 =>
                              if (d =? 44)%N then parse_members f r4 (assoc_set k v acc)
                              else if (d =? 125)%N then Some (JObj (assoc_set k v acc), r4)
                              else None
                          | [] => None
                          end
                      | None => None
                      end
                    else None
                | [] => None
                end
            | None => None
            end
          else None
      | [] => None
      end
  end.

(** [JSON.parse(text)]: one value surrounded by white space; [None] stands
    for the [SyntaxError]. A repeated member name keeps its first place and
    its last value. *)
Definition JSON_parse (text : jsstring) : option json :=
  match parse_value (2 * length text + 2) text with
  | Some (v, r) => match skip_ws r with [] => Some v | _ => None end
  | None => None
  end.

(** *** [JSON.stringify] without indentation, on the same values *)

Definition hexdigit (n : N) : N :=
  (if n <? 10 then 48 + n else 87 + n)%N.

(** [\uXXXX]. *)
Definition unicode_escape (c : N) : jsstring :=
  [92; 117; hexdigit (N.land (N.shiftr c 12) 15); hexdigit (N.land (N.shiftr c 8) 15);
   hexdigit (N.land (N.shiftr c 4) 15); hexdigit (N.land c 15)]%N.

Definition isHighSurrogate (c : N) : bool := ((55296 <=? c) && (c <=? 56319))%N.
Definition isLowSurrogate (c : N) : bool := ((56320 <=? c) && (c <=? 57343))%N.

(** The characters of a string between its quotes: the quote, the
    backslash and the control characters are escaped, and so is a
    surrogate without its partner. *)
Fixpoint escape (str : jsstring) : jsstring :=
  match str with
  | [] => []
  | c :: r =>
      (if c =? 34 then [92; 34] ++ escape r
       else if c =? 92 then [92; 92] ++ escape r
       else if c =? 8 then [92; 98] ++ escape r
       else if c =? 12 then [92; 102] ++ escape r
       else if c =? 10 then [92; 110] ++ escape r
       else if c =? 13 then [92; 114] ++ escape r
       else if c =? 9 then [92; 116] ++ escape r
       else if c <? 32 then unicode_escape c ++ escape r
       else if isHighSurrogate c then
         match r with
         | d :: r' =>
             if isLowSurrogate d then c :: d :: escape r'
             else unicode_escape c ++ escape r
         | [] => unicode_escape c
         end
       else if isLowSurrogate c then unicode_escape c ++ escape r
       else c :: escape r)%N
  end.

Definition quote (str : jsstring) : jsstring := QUOTE :: escape str ++ [QUOTE].

Fixpoint join (sep : jsstring) (parts : list jsstring) : jsstring :=
  match parts with
  | [] => []
  | [p] => p
  | p :: more => p ++ sep ++ join sep more
  end.

Fixpoint JSON_stringify (v : json) : jsstring :=
  match v with
  | JNull => lit "null"
  | JBool true => lit "true"
  | JBool false => lit "false"
  | JNum z => lit (DecimalString.NilZero.string_of_int (Z.to_int z))
  | JStr str => quote str
  | JArr items => lit "[" ++ join (lit ",") (map JSON_stringify items) ++ lit "]"
  | JObj members =>
      lit "{"
      ++ join (lit ",")
           (map (fun kv => quote (fst kv) ++ lit ":" ++ JSON_stringify (snd kv))
              members)
      ++ lit "}"
  end.

End Reference.

(* ===================================================================== *)
(** ** ServerManager                                                       *)
(* ===================================================================== *)

Module Manager.

(** [`${serverName}_${original}`]. *)
Definition unified (serverName original : jsstring) : jsstring :=
  serverName ++ lit "_" ++ original.

(** [value || fallback] on an optional string. *)
Definition or_else (value : option jsstring) (fallback : jsstring) : jsstring :=
  match value with
  | Some (c :: r) => c :: r
  | _ => fallback
  end.

(** [value || undefined] on an optional string. *)
Definition or_undefined (value : option jsstring) : option jsstring :=
  match value with
  | Some (c :: r) => Some (c :: r)
  | _ => None
  end.

(** [schema ? JSON.parse(JSON.stringify(schema)) : undefined]: the clone of
    a JSON value is the value. *)
Definition clone_schema (schema : option json) : option json :=
  match schema with
  | Some v => if truthy v then Some v else None
  | None => None
  end.

(** What [client.listTools()], [listResources()] and [listPrompts()]
    return, item by item. *)
Record ClientToolResponse := {
  tool_name : jsstring;
  tool_title : option jsstring;
  tool_description : option jsstring;
  tool_inputSchema : option json;
  tool_outputSchema : option json
}.

Record ClientResourceResponse := {
  resource_uri : jsstring;
  resource_name : option jsstring;
  resource_title : option jsstring;
  resource_description : option jsstring;
  resource_mimeType : option jsstring
}.

Record ClientPromptResponse := {
  prompt_name : jsstring;
  prompt_title : option jsstring;
  prompt_description : option jsstring;
  prompt_argsSchema : option json
}.

(** The capability member of a list response ([response.tools] and the
    like): an array of items, or anything else, [undefined] included. *)
Inductive field (A : Type) : Type :=
| Items (items : list A)
| NotArray (raw : option json).
Arguments Items {A} items.
Arguments NotArray {A} raw.

Definition Array_isArray {A : Type} (f : field A) : bool :=
  match f with
  | Items _ => true
  | NotArray _ => false
  end.

(** The elements [forEach] visits. *)
Definition elements {A : Type} (f : field A) : list A :=
  match f with
  | Items l => l
  | NotArray _ => []
  end.

Record CallToolRequest := { call_name : jsstring; call_arguments : json }.
Record ReadResourceRequest := { read_uri : jsstring }.

(** A spawned child, seen through the answers it gives to its client. *)
Record ChildProcess := {
  connect : outcome unit;
  listTools : outcome (field ClientToolResponse);
  listResources : outcome (field ClientResourceResponse);
  listPrompts : outcome (field ClientPromptResponse);
  callTool : CallToolRequest -> outcome json;
  readResource : ReadResourceRequest -> outcome json
}.

(** [new Client({ name: serverName, version: "1.0.0" })], connected to the
    child's pipes. *)
Record Client := { client_name : jsstring; peer : ChildProcess }.

Record SpawnedServer := { process : ChildProcess; client : Client }.

Record McpServerConfig := {
  disabled : option bool;
  command : jsstring;
  args : list jsstring;
  env : list (jsstring * jsstring);
  cwd : option jsstring
}.

(** [mcpServers], in the order [for ... in] enumerates it. *)
Record McpRouterConfig := { mcpServers : list (jsstring * McpServerConfig) }.

Record UnifiedToolMetadata := {
  ut_name : jsstring;
  ut_title : option jsstring;
  ut_description : option jsstring;
  ut_inputSchema : option json;
  ut_serverName : jsstring;
  originalToolName : jsstring
}.

Record UnifiedResourceMetadata := {
  ur_name : option jsstring;
  ur_uri : jsstring;
  ur_title : option jsstring;
  ur_description : option jsstring;
  ur_mimeType : option jsstring;
  ur_serverName : jsstring;
  originalResourceUri : jsstring
}.

Record UnifiedPromptMetadata := {
  up_name : jsstring;
  up_title : option jsstring;
  up_description : option jsstring;
  up_argsSchema : option json;
  up_serverName : jsstring;
  originalPromptName : jsstring
}.

(** The objects pushed on the three collections. *)
Definition mkTool (serverName : jsstring) (tool : ClientToolResponse)
  : UnifiedToolMetadata :=
  {| ut_name := unified serverName (tool_name tool);
     ut_title := Some (or_else (tool_title tool) (unified serverName (tool_name tool)));
     ut_description := tool_description tool;
     ut_inputSchema := clone_schema (tool_inputSchema tool);
     ut_serverName := serverName;
     originalToolName := tool_name tool |}.

Definition mkResource (serverName : jsstring) (resource : ClientResourceResponse)
  : UnifiedResourceMetadata :=
  {| ur_name := or_undefined (resource_name resource);
     ur_uri := unified serverName (resource_uri resource);
     ur_title := Some (or_else (resource_title resource)
                         (unified serverName (resource_uri resource)));
     ur_description := resource_description resource;
     ur_mimeType := resource_mimeType resource;
     ur_serverName := serverName;
     originalResourceUri := resource_uri resource |}.

Definition mkPrompt (serverName : jsstring) (prompt : ClientPromptResponse)
  : UnifiedPromptMetadata :=
  {| up_name := unified serverName (prompt_name prompt);
     up_title := Some (or_else (prompt_title prompt) (unified serverName (prompt_name prompt)));
     up_description := prompt_description prompt;
     up_argsSchema := clone_schema (prompt_argsSchema prompt);
     up_serverName := serverName;
     originalPromptName := prompt_name prompt |}.

(** Console output: the level and the text of the first argument. *)
Inductive LogEntry : Type :=
| Log (text : jsstring)
| Warn (text : jsstring)
| Error (text : jsstring).

Definition isWarn (e : LogEntry) : bool :=
  match e with
  | Warn _ => true
  | _ => false
  end.

(** A list call issued by [rebuildUnifiedCollections] whose promise has
    not settled yet. *)
Inductive Pending : Type :=
| PendingTools (c : Client)
| PendingResources (c : Client)
| PendingPrompts (c : Client).

(** The [Map] of spawned servers keeps insertion order. *)
Section MapOps.
Variable V : Type.

Fixpoint map_get (k : jsstring) (m : list (jsstring * V)) : option V :=
  match m with
  | [] => None
  | (k', v) :: r => if streq k' k then Some v else map_get k r
  end.

Fixpoint map_set (k : jsstring) (v : V) (m : list (jsstring * V))
  : list (jsstring * V) :=
  match m with
  | [] => [(k, v)]
  | (k', v') :: r => if streq k' k then (k', v) :: r else (k', v') :: map_set k v r
  end.

Fixpoint map_delete (k : jsstring) (m : list (jsstring * V)) : list (jsstring * V) :=
  match m with
  | [] => []
  | (k', v) :: r => if streq k' k then map_delete k r else (k', v) :: map_delete k r
  end.

Definition map_has (k : jsstring) (m : list (jsstring * V)) : bool :=
  match map_get k m with
  | Some _ => true
  | None => false
  end.
End MapOps.

(** The fields of the class, with the console and the unsettled promises
    of the process it runs in. *)
Record ServerManager := {
  config : option McpRouterConfig;
  spawnedServers : list (jsstring * SpawnedServer);
  unifiedTools : list UnifiedToolMetadata;
  unifiedResources : list UnifiedResourceMetadata;
  unifiedPrompts : list UnifiedPromptMetadata;
  console : list LogEntry;
  pending : list Pending
}.

(** [new ServerManager(configPath)]. *)
Definition new_manager : ServerManager :=
  {| config := None; spawnedServers := []; unifiedTools := [];
     unifiedResources := []; unifiedPrompts := []; console := []; pending := [] |}.

(** [loadConfig()] when the file reads and parses as [cfg]. *)
Definition loadConfig (cfg : McpRouterConfig) (sm : ServerManager) : ServerManager :=
  {| config := Some cfg; spawnedServers := spawnedServers sm;
     unifiedTools := unifiedTools sm; unifiedResources := unifiedResources sm;
     unifiedPrompts := unifiedPrompts sm;
     console := console sm ++ [Log (lit "Configuration loaded successfully.")];
     pending := pending sm |}.

Definition say (entries : list LogEntry) (sm : ServerManager) : ServerManager :=
  {| config := config sm; spawnedServers := spawnedServers sm;
     unifiedTools := unifiedTools sm; unifiedResources := unifiedResources sm;
     unifiedPrompts := unifiedPrompts sm;
     console := console sm ++ entries; pending := pending sm |}.

Definition with_servers (m : list (jsstring * SpawnedServer)) (sm : ServerManager)
  : ServerManager :=
  {| config := config sm; spawnedServers := m;
     unifiedTools := unifiedTools sm; unifiedResources := unifiedResources sm;
     unifiedPrompts := unifiedPrompts sm;
     console := console sm; pending := pending sm |}.

Definition push_tools (l : list UnifiedToolMetadata) (sm : ServerManager) :=
  {| config := config sm; spawnedServers := spawnedServers sm;
     unifiedTools := unifiedTools sm ++ l; unifiedResources := unifiedResources sm;
     unifiedPrompts := unifiedPrompts sm;
     console := console sm; pending := pending sm |}.

Definition push_resources (l : list UnifiedResourceMetadata) (sm : ServerManager) :=
  {| config := config sm; spawnedServers := spawnedServers sm;
     unifiedTools := unifiedTools sm; unifiedResources := unifiedResources sm ++ l;
     unifiedPrompts := unifiedPrompts sm;
     console := console sm; pending := pending sm |}.

Definition push_prompts (l : list UnifiedPromptMetadata) (sm : ServerManager) :=
  {| config := config sm; spawnedServers := spawnedServers sm;
     unifiedTools := unifiedTools sm; unifiedResources := unifiedResources sm;
     unifiedPrompts := unifiedPrompts sm ++ l;
     console := console sm; pending := pending sm |}.

Definition tag (serverName : jsstring) (text : string) : jsstring :=
  lit "[" ++ serverName ++ lit "] " ++ lit text.

(** The three [try] blocks of the discovery: the array kept for the
    [forEach] and the lines written to the console. The warning tests the
    variable that already holds the array. *)
Definition discoverTools (serverName : jsstring) (c : Client)
  : field ClientToolResponse * list LogEntry :=
  match listTools (peer c) with
  | Resolved response_tools =>
      let tools := if Array_isArray response_tools then response_tools else Items [] in
      (tools,
       Log (tag serverName "Received tools:")
       :: (if negb (Array_isArray tools)
           then [Warn (tag serverName "client.listTools() did not return an array. Received:")]
           else []))
  | Rejected toolError =>
      (Items [], [Error (tag serverName "Error listing tools:")])
  end.

Definition discoverResources (serverName : jsstring) (c : Client)
  : field ClientResourceResponse * list LogEntry :=
  match listResources (peer c) with
  | Resolved response_resources =>
      let resources :=
        if Array_isArray response_resources then response_resources else Items [] in
      (resources,
       Log (tag serverName "Received resources:")
       :: (if negb (Array_isArray resources)
           then [Warn (tag serverName "client.listResources() did not return an array. Received:")]
           else []))
  | Rejected resourceError =>
      (Items [], [Error (tag serverName "Error listing resources:")])
  end.

Definition discoverPrompts (serverName : jsstring) (c : Client)
  : field ClientPromptResponse * list LogEntry :=
  match listPrompts (peer c) with
  | Resolved response_prompts =>
      let prompts :=
        if Array_isArray response_prompts then response_prompts else Items [] in
      (prompts,
       Log (tag serverName "Received prompts:")
       :: (if negb (Array_isArray prompts)
           then [Warn (tag serverName "client.listPrompts() did not return an array. Received:")]
           else []))
  | Rejected promptError =>
      (Items [], [Error (tag serverName "Error listing prompts:")])
  end.

Section Spawn.

(** [spawn(command, args, options)] for the entry of a server: the child
    it starts, or the exception it throws. *)
Variable spawn : jsstring -> McpServerConfig -> outcome ChildProcess.

(** One iteration of the loop of [spawnServers], run in one piece: no
    event arrives at its [await]s. The iteration with the events of its
    [await]s is [spawnServer_during] further down; the two agree as long
    as no child closes. *)
Definition spawnServer (sm : ServerManager) (entry : jsstring * McpServerConfig)
  : ServerManager :=
  let serverName := fst entry in
  let serverConfig := snd entry in
  match disabled serverConfig with
  | Some true =>
      say [Log (lit "Server " ++ serverName ++ lit " is disabled, skipping.")] sm
  | _ =>
      let sm := say [Log (lit "Spawning server: " ++ serverName)] sm in
      match spawn serverName serverConfig with
      | Rejected error =>
          say [Error (lit "Failed to spawn server " ++ serverName ++ lit ":")] sm
      | Resolved childProcess =>
          let c := {| client_name := serverName; peer := childProcess |} in
          let sm :=
            with_servers
              (map_set serverName {| process := childProcess; client := c |}
                 (spawnedServers sm)) sm in
          match connect childProcess with
          | Rejected error =>
              say [Error (lit "Failed to spawn server " ++ serverName ++ lit ":")] sm
          | Resolved _ =>
              let t := discoverTools serverName c in
              let r := discoverResources serverName c in
              let p := discoverPrompts serverName c in
              let sm := say (snd t ++ snd r ++ snd p) sm in
              let sm := push_tools (map (mkTool serverName) (elements (fst t))) sm in
              let sm := push_resources (map (mkResource serverName) (elements (fst r))) sm in
              let sm := push_prompts (map (mkPrompt serverName) (elements (fst p))) sm in
              say [Log (lit "Server " ++ serverName ++ lit " spawned and capabilities loaded.")] sm
          end
      end
  end.

(** [spawnServers()]: rejects when no configuration is loaded. *)
Definition spawnServers (sm : ServerManager) : outcome ServerManager :=
  match config sm with
  | None => Rejected (mkError (lit "Configuration not loaded. Call loadConfig() first."))
  | Some cfg =>
      Resolved (say [Log (lit "All configured servers processed.")]
                  (fold_left spawnServer (mcpServers cfg) sm))
  end.

End Spawn.

(** [rebuildUnifiedCollections()], up to the return of the method: the
    collections are emptied and three list calls per remaining server are
    issued. *)
Definition rebuildUnifiedCollections (sm : ServerManager) : ServerManager :=
  {| config := config sm; spawnedServers := spawnedServers sm;
     unifiedTools := []; unifiedResources := []; unifiedPrompts := [];
     console := console sm;
     pending := pending sm
       ++ flat_map (fun e => [PendingTools (client (snd e));
                              PendingResources (client (snd e));
                              PendingPrompts (client (snd e))])
            (spawnedServers sm) |}.

(** The [then] and [catch] callbacks of one of those calls, given the
    settlement of its promise. *)
Definition settleTools (c : Client) (r : outcome (field ClientToolResponse))
  (sm : ServerManager) : ServerManager :=
  match r with
  | Resolved response_tools =>
      let rebuiltTools :=
        if Array_isArray response_tools then elements response_tools else [] in
      let sm := push_tools (map (mkTool (client_name c)) rebuiltTools) sm in
      if negb (Array_isArray response_tools)
      then say [Warn (lit "Rebuild: client.listTools() did not return an array. Received:")] sm
      else sm
  | Rejected error => say [Error (lit "Error rebuilding unified tools:")] sm
  end.

Definition settleResources (c : Client) (r : outcome (field ClientResourceResponse))
  (sm : ServerManager) : ServerManager :=
  match r with
  | Resolved response_resources =>
      let rebuiltResources :=
        if Array_isArray response_resources then elements response_resources else [] in
      let sm := push_resources (map (mkResource (client_name c)) rebuiltResources) sm in
      if negb (Array_isArray response_resources)
      then say [Warn (lit "Rebuild: client.listResources() did not return an array. Received:")] sm
      else sm
  | Rejected error => say [Error (lit "Error rebuilding unified resources:")] sm
  end.

Definition settlePrompts (c : Client) (r : outcome (field ClientPromptResponse))
  (sm : ServerManager) : ServerManager :=
  match r with
  | Resolved response_prompts =>
      let rebuiltPrompts :=
        if Array_isArray response_prompts then elements response_prompts else [] in
      let sm := push_prompts (map (mkPrompt (client_name c)) rebuiltPrompts) sm in
      if negb (Array_isArray response_prompts)
      then say [Warn (lit "Rebuild: client.listPrompts() did not return an array. Received:")] sm
      else sm
  | Rejected error => say [Error (lit "Error rebuilding unified prompts:")] sm
  end.

Definition with_pending (l : list Pending) (sm : ServerManager) : ServerManager :=
  {| config := config sm; spawnedServers := spawnedServers sm;
     unifiedTools := unifiedTools sm; unifiedResources := unifiedResources sm;
     unifiedPrompts := unifiedPrompts sm;
     console := console sm; pending := l |}.

(** What happens to the manager after startup. *)
Inductive Event : Type :=
| Close (serverName : jsstring)
| Settle (i : nat).

(** The ['close'] handler of a child process. *)
Definition on_close (serverName : jsstring) (sm : ServerManager) : ServerManager :=
  let sm := say [Log (lit "Server " ++ serverName ++ lit " exited with code")] sm in
  let sm := with_servers (map_delete serverName (spawnedServers sm)) sm in
  rebuildUnifiedCollections sm.

(** The [i]-th unsettled call settles with the answer of its child. *)
Definition on_settle (i : nat) (sm : ServerManager) : ServerManager :=
  match nth_error (pending sm) i with
  | None => sm
  | Some p =>
      let sm := with_pending (firstn i (pending sm) ++ skipn (S i) (pending sm)) sm in
      match p with
      | PendingTools c => settleTools c (listTools (peer c)) sm
      | PendingResources c => settleResources c (listResources (peer c)) sm
      | PendingPrompts c => settlePrompts c (listPrompts (peer c)) sm
      end
  end.

Definition handle (sm : ServerManager) (e : Event) : ServerManager :=
  match e with
  | Close serverName => on_close serverName sm
  | Settle i => on_settle i sm
  end.

(** *** Events during [spawnServers]

    The loop of [spawnServers] gives way at its four [await]s, and the
    ['close'] handler of a child is installed before the first of them:
    the events that arrive at an [await] are handled before the loop goes
    on with the manager they leave. *)
Record Awaits := {
  at_connect : list Event;
  at_listTools : list Event;
  at_listResources : list Event;
  at_listPrompts : list Event
}.

Definition undisturbed : Awaits :=
  {| at_connect := []; at_listTools := []; at_listResources := [];
     at_listPrompts := [] |}.

Definition occur (events : list Event) (sm : ServerManager) : ServerManager :=
  fold_left handle events sm.

Section SpawnDuring.

Variable spawn : jsstring -> McpServerConfig -> outcome ChildProcess.

(** The events that arrive while the server of a given name is brought
    up. *)
Variable schedule : jsstring -> Awaits.

(** One iteration of the loop of [spawnServers], with the events of its
    [await]s. *)
Definition spawnServer_during (sm : ServerManager) (entry : jsstring * McpServerConfig)
  : ServerManager :=
  let serverName := fst entry in
  let serverConfig := snd entry in
  match disabled serverConfig with
  | Some true =>
      say [Log (lit "Server " ++ serverName ++ lit " is disabled, skipping.")] sm
  | _ =>
      let sm := say [Log (lit "Spawning server: " ++ serverName)] sm in
      match spawn serverName serverConfig with
      | Rejected error =>
          say [Error (lit "Failed to spawn server " ++ serverName ++ lit ":")] sm
      | Resolved childProcess =>
          let c := {| client_name := serverName; peer := childProcess |} in
          let sm :=
            with_servers
              (map_set serverName {| process := childProcess; client := c |}
                 (spawnedServers sm)) sm in
          let sm := occur (at_connect (schedule serverName)) sm in
          match connect childProcess with
          | Rejected error =>
              say [Error (lit "Failed to spawn server " ++ serverName ++ lit ":")] sm
          | Resolved _ =>
              let sm := occur (at_listTools (schedule serverName)) sm in
              let t := discoverTools serverName c in
              let sm := say (snd t) sm in
              let sm := occur (at_listResources (schedule serverName)) sm in
              let r := discoverResources serverName c in
              let sm := say (snd r) sm in
              let sm := occur (at_listPrompts (schedule serverName)) sm in
              let p := discoverPrompts serverName c in
              let sm := say (snd p) sm in
              let sm := push_tools (map (mkTool serverName) (elements (fst t))) sm in
              let sm := push_resources (map (mkResource serverName) (elements (fst r))) sm in
              let sm := push_prompts (map (mkPrompt serverName) (elements (fst p))) sm in
              say [Log (lit "Server " ++ serverName ++ lit " spawned and capabilities loaded.")] sm
          end
      end
  end.

(** [spawnServers()] with the events of its [await]s. *)
Definition spawnServers_during (sm : ServerManager) : outcome ServerManager :=
  match config sm with
  | None => Rejected (mkError (lit "Configuration not loaded. Call loadConfig() first."))
  | Some cfg =>
      Resolved (say [Log (lit "All configured servers processed.")]
                  (fold_left spawnServer_during (mcpServers cfg) sm))
  end.

End SpawnDuring.

Definition getUnifiedTools (sm : ServerManager) := unifiedTools sm.
Definition getUnifiedResources (sm : ServerManager) := unifiedResources sm.
Definition getUnifiedPrompts (sm : ServerManager) := unifiedPrompts sm.

Definition getSpawnedServer (sm : ServerManager) (serverName : jsstring)
  : option SpawnedServer :=
  map_get serverName (spawnedServers sm).

(** [stopAllServers()]: every process is signalled, then everything is
    cleared. *)
Definition stopAllServers (sm : ServerManager) : ServerManager :=
  {| config := config sm; spawnedServers := [];
     unifiedTools := []; unifiedResources := []; unifiedPrompts := [];
     console := console sm
       ++ map (fun e => Log (lit "Stopping server: " ++ fst e)) (spawnedServers sm);
     pending := pending sm |}.

End Manager.
Import Manager.

(* ===================================================================== *)
(** ** index.ts: registration and proxy handlers                           *)
(* ===================================================================== *)

Module Router.

(** The zod types [convertJsonSchemaToZod] builds. *)
Inductive ZodType : Type :=
| ZString
| ZNumber
| ZBoolean
| ZArrayAny
| ZAny.

Definition ZodRawShape := list (jsstring * ZodType).

(** An own member set: at its place if the shape has the key, at the end
    otherwise. *)
Fixpoint own_set (k : jsstring) (v : ZodType) (shape : ZodRawShape) : ZodRawShape :=
  match shape with
  | [] => [(k, v)]
  | (k', v') :: r => if streq k' k then (k', v) :: r else (k', v') :: own_set k v r
  end.

(** [shape[key] = v] on the object literal [{}]. For the key [__proto__]
    the assignment calls the setter that every object inherits, which
    makes the zod type the prototype of the shape and adds no member. *)
Definition shape_set (k : jsstring) (v : ZodType) (shape : ZodRawShape) : ZodRawShape :=
  if streq k (lit "__proto__") then shape else own_set k v shape.

(** The decimal numeral of an array index, as a property name. *)
Definition index_key (i : nat) : jsstring :=
  lit (DecimalString.NilZero.string_of_uint (Nat.to_uint i)).

(** The properties [for (const key in value)] enumerates, with their
    values: the members of an object, the elements of an array, the
    characters of a string. *)
Definition enumerate (v : json) : list (jsstring * json) :=
  match v with
  | JObj members => members
  | JArr items => combine (map index_key (seq 0 (length items))) items
  | JStr str =>
      combine (map index_key (seq 0 (length str))) (map (fun c => JStr [c]) str)
  | _ => []
  end.

(** The zod type chosen for one property; reading [prop.type] on [null]
    throws. *)
Definition zod_of_prop (prop : json) : outcome ZodType :=
  match prop with
  | JNull =>
      Rejected (mkError (lit "Cannot read properties of null (reading 'type')"))
  | _ =>
      match get prop (lit "type") with
      | Some (JStr ty) =>
          if streq ty (lit "string") then Resolved ZString
          else if streq ty (lit "number") || streq ty (lit "integer") then Resolved ZNumber
          else if streq ty (lit "boolean") then Resolved ZBoolean
          else if streq ty (lit "array") then Resolved ZArrayAny
          else Resolved ZAny
      | _ => Resolved ZAny
      end
  end.

Fixpoint convert_properties (props : list (jsstring * json)) (shape : ZodRawShape)
  : outcome ZodRawShape :=
  match props with
  | [] => Resolved shape
  | (key, prop) :: rest =>
      match zod_of_prop prop with
      | Resolved z => convert_properties rest (shape_set key z shape)
      | Rejected e => Rejected e
      end
  end.

Definition typeof_object (v : json) : bool :=
  match v with
  | JNull | JArr _ | JObj _ => true
  | _ => false
  end.

(** [convertJsonSchemaToZod(jsonSchema)]; [Resolved None] is the returned
    [undefined]. *)
Definition convertJsonSchemaToZod (jsonSchema : json) : outcome (option ZodRawShape) :=
  if negb (truthy jsonSchema)
     || negb (typeof_object jsonSchema)
     || negb (match get jsonSchema (lit "type") with
              | Some (JStr ty) => streq ty (lit "object")
              | _ => false
              end)
     || negb (truthy_opt (get jsonSchema (lit "properties")))
  then Resolved None
  else
    match get jsonSchema (lit "properties") with
    | Some properties =>
        match convert_properties (enumerate properties) [] with
        | Resolved shape => Resolved (Some shape)
        | Rejected e => Rejected e
        end
    | None => Resolved None
    end.

(** [schema ? convertJsonSchemaToZod(schema) : undefined]. *)
Definition convert_optional (schema : option json) : outcome (option ZodRawShape) :=
  match schema with
  | Some v => if truthy v then convertJsonSchemaToZod v else Resolved None
  | None => Resolved None
  end.

(** The handlers the registration loops create: closures over the
    metadata of their iteration, and the local addition. *)
Inductive ToolHandler : Type :=
| ProxyHandler (toolMetadata : UnifiedToolMetadata)
| AddHandler.

Record RegisteredTool := {
  rt_name : jsstring;
  rt_title : option jsstring;
  rt_description : option jsstring;
  rt_inputSchema : option ZodRawShape;
  rt_handler : ToolHandler
}.

Record RegisteredResource := {
  rr_name : jsstring;
  rr_uri : jsstring;
  rr_title : option jsstring;
  rr_description : option jsstring;
  rr_mimeType : option jsstring;
  rr_handler : UnifiedResourceMetadata
}.

Record RegisteredPrompt := {
  rp_name : jsstring;
  rp_title : option jsstring;
  rp_description : option jsstring;
  rp_argsSchema : option ZodRawShape;
  rp_handler : UnifiedPromptMetadata
}.

(** The outward server, as the register calls [main] makes on it, in
    order. [McpServer] is a class of the SDK, which is not part of the
    sources: this record keeps every call and lets none throw, whatever
    the names are. What the SDK does with a call is a parameter of the
    registrations further down ([register_all_on]). *)
Record McpServer := {
  registeredTools : list RegisteredTool;
  registeredResources : list RegisteredResource;
  registeredPrompts : list RegisteredPrompt
}.

Definition new_server : McpServer :=
  {| registeredTools := []; registeredResources := []; registeredPrompts := [] |}.

Definition registerTool (r : RegisteredTool) (srv : McpServer) : McpServer :=
  {| registeredTools := registeredTools srv ++ [r];
     registeredResources := registeredResources srv;
     registeredPrompts := registeredPrompts srv |}.

Definition registerResource (r : RegisteredResource) (srv : McpServer) : McpServer :=
  {| registeredTools := registeredTools srv;
     registeredResources := registeredResources srv ++ [r];
     registeredPrompts := registeredPrompts srv |}.

Definition registerPrompt (r : RegisteredPrompt) (srv : McpServer) : McpServer :=
  {| registeredTools := registeredTools srv;
     registeredResources := registeredResources srv;
     registeredPrompts := registeredPrompts srv ++ [r] |}.

(** The addition tool registered inside the loop over the tools. *)
Definition add_tool : RegisteredTool :=
  {| rt_name := lit "add";
     rt_title := Some (lit "Addition Tool");
     rt_description := Some (lit "Add two numbers");
     rt_inputSchema := Some [(lit "a", ZNumber); (lit "b", ZNumber)];
     rt_handler := AddHandler |}.

(** The three registration loops of [main]; an exception of the schema
    conversion leaves the loop. *)
Fixpoint register_tools (tools : list UnifiedToolMetadata) (srv : McpServer)
  : outcome McpServer :=
  match tools with
  | [] => Resolved srv
  | toolMetadata :: rest =>
      match convert_optional (ut_inputSchema toolMetadata) with
      | Rejected e => Rejected e
      | Resolved shape =>
          let srv :=
            registerTool
              {| rt_name := ut_name toolMetadata;
                 rt_title := ut_title toolMetadata;
                 rt_description := ut_description toolMetadata;
                 rt_inputSchema := shape;
                 rt_handler := ProxyHandler toolMetadata |} srv in
          register_tools rest (registerTool add_tool srv)
      end
  end.

Fixpoint register_resources (resources : list UnifiedResourceMetadata) (srv : McpServer)
  : McpServer :=
  match resources with
  | [] => srv
  | resourceMetadata :: rest =>
      register_resources rest
        (registerResource
           {| rr_name := ur_uri resourceMetadata;
              rr_uri := originalResourceUri resourceMetadata;
              rr_title := ur_title resourceMetadata;
              rr_description := ur_description resourceMetadata;
              rr_mimeType := ur_mimeType resourceMetadata;
              rr_handler := resourceMetadata |} srv)
  end.

Fixpoint register_prompts (prompts : list UnifiedPromptMetadata) (srv : McpServer)
  : outcome McpServer :=
  match prompts with
  | [] => Resolved srv
  | promptMetadata :: rest =>
      match convert_optional (up_argsSchema promptMetadata) with
      | Rejected e => Rejected e
      | Resolved shape =>
          register_prompts rest
            (registerPrompt
               {| rp_name := up_name promptMetadata;
                  rp_title := up_title promptMetadata;
                  rp_description := up_description promptMetadata;
                  rp_argsSchema := shape;
                  rp_handler := promptMetadata |} srv)
      end
  end.

(** The registrations of [main], from the collections the manager holds
    when [spawnServers] has returned. *)
Definition register_all (sm : ServerManager) : outcome McpServer :=
  match register_tools (getUnifiedTools sm) new_server with
  | Rejected e => Rejected e
  | Resolved srv =>
      register_prompts (getUnifiedPrompts sm)
        (register_resources (getUnifiedResources sm) srv)
  end.

(** *** The registrations against the SDK

    What a register method of the SDK's [McpServer] does is not in the
    sources. Here it is a parameter: given the server as it is, a call
    returns the server it leaves or throws. *)
Inductive Registration : Type :=
| ToolRegistration (r : RegisteredTool)
| ResourceRegistration (r : RegisteredResource)
| PromptRegistration (r : RegisteredPrompt).

(** How far the registrations of [main] got: the calls made, in order,
    and the server they left or the exception that ended them. When the
    SDK threw, the call that threw is the last one. *)
Definition Progress (Server : Type) : Type := (list Registration * outcome Server)%type.

Section Sdk.

Variable Server : Type.
Variable register : Registration -> Server -> outcome Server.

(** One register call, and what follows it if it returns. *)
Definition call (r : Registration) (next : Server -> Progress Server) (srv : Server)
  : Progress Server :=
  match register r srv with
  | Resolved srv' => (r :: fst (next srv'), snd (next srv'))
  | Rejected e => ([r], Rejected e)
  end.

(** One loop after another. *)
Definition and_then (first : Progress Server) (next : Server -> Progress Server)
  : Progress Server :=
  match snd first with
  | Resolved srv => (fst first ++ fst (next srv), snd (next srv))
  | Rejected e => first
  end.

Fixpoint register_tools_on (tools : list UnifiedToolMetadata) (srv : Server)
  : Progress Server :=
  match tools with
  | [] => ([], Resolved srv)
  | toolMetadata :: rest =>
      match convert_optional (ut_inputSchema toolMetadata) with
      | Rejected e => ([], Rejected e)
      | Resolved shape =>
          call
            (ToolRegistration
               {| rt_name := ut_name toolMetadata;
                  rt_title := ut_title toolMetadata;
                  rt_description := ut_description toolMetadata;
                  rt_inputSchema := shape;
                  rt_handler := ProxyHandler toolMetadata |})
            (call (ToolRegistration add_tool) (register_tools_on rest)) srv
      end
  end.

Fixpoint register_resources_on (resources : list UnifiedResourceMetadata) (srv : Server)
  : Progress Server :=
  match resources with
  | [] => ([], Resolved srv)
  | resourceMetadata :: rest =>
      call
        (ResourceRegistration
           {| rr_name := ur_uri resourceMetadata;
              rr_uri := originalResourceUri resourceMetadata;
              rr_title := ur_title resourceMetadata;
              rr_description := ur_description resourceMetadata;
              rr_mimeType := ur_mimeType resourceMetadata;
              rr_handler := resourceMetadata |})
        (register_resources_on rest) srv
  end.

Fixpoint register_prompts_on (prompts : list UnifiedPromptMetadata) (srv : Server)
  : Progress Server :=
  match prompts with
  | [] => ([], Resolved srv)
  | promptMetadata :: rest =>
      match convert_optional (up_argsSchema promptMetadata) with
      | Rejected e => ([], Rejected e)
      | Resolved shape =>
          call
            (PromptRegistration
               {| rp_name := up_name promptMetadata;
                  rp_title := up_title promptMetadata;
                  rp_description := up_description promptMetadata;
                  rp_argsSchema := shape;
                  rp_handler := promptMetadata |})
            (register_prompts_on rest) srv
      end
  end.

(** The registrations of [main] on the server the SDK constructed: the
    tools, then the resources, then the prompts. *)
Definition register_all_on (sm : ServerManager) (srv : Server) : Progress Server :=
  and_then (register_tools_on (getUnifiedTools sm) srv)
    (fun srv =>
       and_then (register_resources_on (getUnifiedResources sm) srv)
         (register_prompts_on (getUnifiedPrompts sm))).

End Sdk.

(** The tools among the calls. *)
Definition tool_calls (calls : list Registration) : list RegisteredTool :=
  flat_map (fun c => match c with ToolRegistration r => [r] | _ => [] end) calls.

(** Two instances of the parameter, for examples. The first keeps every
    call, as the record [McpServer] does. *)
Definition keep_all (r : Registration) (srv : McpServer) : outcome McpServer :=
  Resolved match r with
           | ToolRegistration t => registerTool t srv
           | ResourceRegistration t => registerResource t srv
           | PromptRegistration t => registerPrompt t srv
           end.

(** The second throws when a tool, a resource or a prompt is registered
    under a name already held in that kind. *)
Definition refuse_twice (r : Registration) (srv : McpServer) : outcome McpServer :=
  let taken :=
    match r with
    | ToolRegistration t => existsb (fun o => streq (rt_name o) (rt_name t)) (registeredTools srv)
    | ResourceRegistration t =>
        existsb (fun o => streq (rr_name o) (rr_name t)) (registeredResources srv)
    | PromptRegistration t =>
        existsb (fun o => streq (rp_name o) (rp_name t)) (registeredPrompts srv)
    end in
  if taken then Rejected (mkError (lit "already registered")) else keep_all r srv.

Definition not_running (serverName : jsstring) : JsError :=
  mkError (lit "Server '" ++ serverName ++ lit "' not found or not running.").

(** [proxyHandler]: the handler of a proxied tool, run against the manager
    as it is at the time of the call. *)
Definition proxyHandler (sm : ServerManager) (toolMetadata : UnifiedToolMetadata)
  (args : json) : outcome json :=
  match getSpawnedServer sm (ut_serverName toolMetadata) with
  | None => Rejected (not_running (ut_serverName toolMetadata))
  | Some serverEntry =>
      match callTool (peer (client serverEntry))
              {| call_name := originalToolName toolMetadata;
                 call_arguments := args |} with
      | Resolved rawResult => Resolved rawResult
      | Rejected error =>
          Resolved (JStr (lit "Error: " ++ message_or error (lit "Unknown error")))
      end
  end.

(** [resourceHandler]. *)
Definition resourceHandler (sm : ServerManager)
  (resourceMetadata : UnifiedResourceMetadata) : outcome json :=
  match getSpawnedServer sm (ur_serverName resourceMetadata) with
  | None => Rejected (not_running (ur_serverName resourceMetadata))
  | Some serverEntry =>
      match readResource (peer (client serverEntry))
              {| read_uri := originalResourceUri resourceMetadata |} with
      | Resolved rawResult => Resolved rawResult
      | Rejected error =>
          Rejected (mkError (lit "Failed to read resource: "
                               ++ message_or error (lit "Unknown error")))
      end
  end.

(** [(rawResult.content as any[])[0]]: [Resolved None] is [undefined];
    reading a member of [null] or [undefined] throws. *)
Definition first_content (rawResult : json) : outcome (option json) :=
  match rawResult with
  | JNull =>
      Rejected (mkError (lit "Cannot read properties of null (reading 'content')"))
  | _ =>
      match get rawResult (lit "content") with
      | None =>
          Rejected (mkError (lit "Cannot read properties of undefined (reading '0')"))
      | Some JNull =>
          Rejected (mkError (lit "Cannot read properties of null (reading '0')"))
      | Some (JArr items) => Resolved (nth_error items 0)
      | Some (JStr str) =>
          Resolved (match str with c :: _ => Some (JStr [c]) | [] => None end)
      | Some (JObj members) => Resolved (assoc (lit "0") members)
      | Some _ => Resolved None
      end
  end.

(** [rawResult._meta || {}]. *)
Definition meta_or_empty (rawResult : json) : json :=
  match get rawResult (lit "_meta") with
  | Some m => if truthy m then m else JObj []
  | None => JObj []
  end.

(** The object the prompt handler returns; a member whose value is
    [undefined] is left out. *)
Definition prompt_result (content : option json) (meta : json) : json :=
  JObj [(lit "messages",
         JArr [JObj (match content with
                     | Some c => [(lit "content", c)]
                     | None => []
                     end ++ [(lit "role", JStr (lit "assistant"))])]);
        (lit "_meta", meta)].

(** [promptHandler]: the call goes through [callTool]. *)
Definition promptHandler (sm : ServerManager)
  (promptMetadata : UnifiedPromptMetadata) (args : json) : outcome json :=
  match getSpawnedServer sm (up_serverName promptMetadata) with
  | None => Rejected (not_running (up_serverName promptMetadata))
  | Some serverEntry =>
      let failed error :=
        Rejected (mkError (lit "Failed to execute prompt: "
                             ++ message_or error (lit "Unknown error"))) in
      match callTool (peer (client serverEntry))
              {| call_name := originalPromptName promptMetadata;
                 call_arguments := args |} with
      | Resolved rawResult =>
          match first_content rawResult with
          | Resolved content =>
              Resolved (prompt_result content (meta_or_empty rawResult))
          | Rejected error => failed error
          end
      | Rejected error => failed error
      end
  end.

(** *** The numbers of the addition tool

    The numbers of the model are integers. The Number value of an integer
    is the nearest double, which is again an integer or an infinity; the
    sum of two of them is the exact sum rounded the same way, or [NaN] for
    two infinities of opposite sign. Fractions are outside the model. *)
Inductive JsNumber : Type :=
| Finite (value : Z)
| Infinite (negative : bool)
| NaN.

(** A natural number rounded to 53 significant bits, ties to even. *)
Definition round53 (m : Z) : Z :=
  if (m <? 2 ^ 53)%Z then m
  else
    let e := (Z.log2 m - 52)%Z in
    let q := Z.shiftr m e in
    let r := (m - Z.shiftl q e)%Z in
    let half := Z.shiftl 1 (e - 1) in
    let q := if (half <? r)%Z || ((half =? r)%Z && Z.odd q) then (q + 1)%Z else q in
    Z.shiftl q e.

(** The Number value of an integer; from [2^1024] on the rounded value is
    an infinity. *)
Definition Number_of (n : Z) : JsNumber :=
  let v := round53 (Z.abs n) in
  if (2 ^ 1024 <=? v)%Z then Infinite (n <? 0)%Z else Finite (Z.sgn n * v).

(** [a + b] on Number values. *)
Definition Number_add (a b : JsNumber) : JsNumber :=
  match a, b with
  | NaN, _ | _, NaN => NaN
  | Infinite s, Infinite s' => if Bool.eqb s s' then Infinite s else NaN
  | Infinite s, Finite _ | Finite _, Infinite s => Infinite s
  | Finite x, Finite y => Number_of (x + y)
  end.

Definition digits (m : Z) : jsstring :=
  lit (DecimalString.NilZero.string_of_int (Z.to_int m)).

(** Whether the real number [w] rounds to the double [v], for [v] from
    [2^53] on: [v] is [q * 2^e] with [2^52 <= q < 2^53]; the doubles next
    to it are [2^e] above and, unless [q] is [2^52], [2^e] below; the
    bounds are half-way, and belong to [v] when [q] is even. All sides are
    multiplied by four. *)
Definition rounds_to (v w : Z) : bool :=
  let e := (Z.log2 v - 52)%Z in
  let q := Z.shiftr v e in
  let above := Z.shiftl 1 (e + 1) in
  let below := if (q =? 2 ^ 52)%Z then Z.shiftl 1 e else Z.shiftl 1 (e + 1) in
  if Z.even q
  then (4 * v - below <=? 4 * w)%Z && (4 * w <=? 4 * v + above)%Z
  else (4 * v - below <? 4 * w)%Z && (4 * w <? 4 * v + above)%Z.

(** The decimal with the fewest significant digits that rounds to [v]:
    the multiples of [10^p] next to [v] are tried for [p] going down; of
    two that do, the nearer one is taken, and the one with the even digit
    on a tie. *)
Fixpoint shortest (fuel : nat) (v p : Z) : Z :=
  match fuel with
  | O => v
  | S fuel' =>
      let unit := (10 ^ p)%Z in
      let below := (v / unit * unit)%Z in
      let above := (below + unit)%Z in
      match rounds_to v below, rounds_to v above with
      | true, true =>
          if (v - below <? above - v)%Z then below
          else if (above - v <? v - below)%Z then above
          else if Z.even (v / unit) then below else above
      | true, false => below
      | false, true => above
      | false, false => shortest fuel' v (p - 1)
      end
  end.

Fixpoint strip_zeros (reversed : jsstring) : jsstring :=
  match reversed with
  | c :: r => if N.eqb c 48 then strip_zeros r else reversed
  | [] => []
  end.

(** [String(v)] for a natural number [v] that is a double. Below [2^53]
    every integer is a double of its own, so the digits are those of [v];
    from there on they are those of the shortest decimal that rounds to
    [v]. With more than 21 digits the exponent form is used. *)
Definition String_of_natural (v : Z) : jsstring :=
  if (v <? 2 ^ 53)%Z then digits v
  else
    let n := length (digits v) in
    let w := shortest (n - 1) v (Z.of_nat n - 1) in
    let all := digits w in
    if length all <=? 21 then all
    else
      let exponent := lit "e+" ++ digits (Z.of_nat (length all) - 1) in
      match rev (strip_zeros (rev all)) with
      | [] => all
      | [d] => [d] ++ exponent
      | d :: more => [d] ++ lit "." ++ more ++ exponent
      end.

(** [String(x)]. *)
Definition String_of (x : JsNumber) : jsstring :=
  match x with
  | NaN => lit "NaN"
  | Infinite false => lit "Infinity"
  | Infinite true => lit "-Infinity"
  | Finite n =>
      if (n <? 0)%Z then lit "-" ++ String_of_natural (- n)
      else String_of_natural n
  end.

(** The handler of the addition tool on two numbers:
    [{ content: [{ type: "text", text: String(a + b) }] }]. *)
Definition addHandler (a b : Z) : json :=
  JObj [(lit "content",
         JArr [JObj [(lit "type", JStr (lit "text"));
                     (lit "text",
                      JStr (String_of (Number_add (Number_of a) (Number_of b))))]])].


(** The names passed to [registerTool], in the order of the calls, and
    the names and URIs passed to [registerResource]: what a [tools/list]
    or [resources/list] request shows if the SDK keeps every call. *)
Definition tools_list (srv : McpServer) : list jsstring :=
  map rt_name (registeredTools srv).

Definition resources_list (srv : McpServer) : list (jsstring * jsstring) :=
  map (fun r => (rr_name r, rr_uri r)) (registeredResources srv).


(** [main()] up to the registrations: configuration, children, outward
    server. *)
Definition startup (spawn : jsstring -> McpServerConfig -> outcome ChildProcess)
  (cfg : McpRouterConfig) : outcome (ServerManager * McpServer) :=
  match spawnServers spawn (loadConfig cfg new_manager) with
  | Rejected e => Rejected e
  | Resolved sm =>
      match register_all sm with
      | Rejected e => Rejected e
      | Resolved srv => Resolved (sm, srv)
      end
  end.

(** The running router: the manager, which events change, and the outward
    server, which nothing touches after [main] has registered on it. *)
Record Router := { manager : ServerManager; server : McpServer }.

Definition router_handle (r : Router) (e : Event) : Router :=
  {| manager := handle (manager r) e; server := server r |}.

(** *** The [/mcp] endpoint *)

(** The names every plain object inherits from [Object.prototype];
    [transports[name]] is truthy for them although no session stored
    it. *)
Definition prototype_names : list jsstring :=
  map lit ["constructor"; "__defineGetter__"; "__defineSetter__";
           "hasOwnProperty"; "__lookupGetter__"; "__lookupSetter__";
           "isPrototypeOf"; "propertyIsEnumerable"; "toString"; "valueOf";
           "__proto__"; "toLocaleString"]%string.

Definition inherited (name : jsstring) : bool :=
  existsb (streq name) prototype_names.

(** What [transports[sessionId]] evaluates to. *)
Inductive Stored (T : Type) : Type :=
| OwnTransport (transport : T)
| InheritedMember
| Undefined.
Arguments OwnTransport {T} transport.
Arguments InheritedMember {T}.
Arguments Undefined {T}.

Section Sessions.

(** The transports of the SDK, as far as the router tells them apart. *)
Variable T : Type.

(** [isInitializeRequest] of the SDK. *)
Variable isInitializeRequest : json -> bool.

Definition stored (transports : list (jsstring * T)) (sessionId : jsstring)
  : Stored T :=
  match map_get sessionId transports with
  | Some transport => OwnTransport transport
  | None => if inherited sessionId then InheritedMember else Undefined
  end.

(** The [mcp-session-id] header and the body of a request as
    [express.json()] has parsed it. *)
Record Request := { session_header : option jsstring; body : json }.

(** A header that is present and not empty, as [if (sessionId)] sees it. *)
Definition header_truthy (h : option jsstring) : option jsstring :=
  match h with
  | Some (c :: r) => Some (c :: r)
  | _ => None
  end.

(** What the [POST] handler decides before it hands the request over. *)
Inductive Route : Type :=
| Reuse (transport : T)
| ReuseInherited
| Initialize
| BadRequest.

Definition route_post (transports : list (jsstring * T)) (req : Request) : Route :=
  match header_truthy (session_header req) with
  | Some sessionId =>
      match stored transports sessionId with
      | OwnTransport transport => Reuse transport
      | InheritedMember => ReuseInherited
      | Undefined => BadRequest
      end
  | None => if isInitializeRequest (body req) then Initialize else BadRequest
  end.

(** A response the router writes itself. *)
Record Response := { status : Z; payload : json }.

Definition bad_request : Response :=
  {| status := 400;
     payload :=
       JObj [(lit "jsonrpc", JStr (lit "2.0"));
             (lit "error",
              JObj [(lit "code", JNum (-32000));
                    (lit "message",
                     JStr (lit "Bad Request: No valid session ID provided"))]);
             (lit "id", JNull)] |}.

(** [req.body.id || null]. *)
Definition id_or_null (b : json) : json :=
  match get b (lit "id") with
  | Some v => if truthy v then v else JNull
  | None => JNull
  end.

Definition internal_error (req : Request) (error : JsError) : Response :=
  {| status := 500;
     payload :=
       JObj [(lit "jsonrpc", JStr (lit "2.0"));
             (lit "error",
              JObj [(lit "code", JNum (-32003));
                    (lit "message",
                     JStr (lit "Internal server error: "
                             ++ message_or error (lit "Unknown error")))]);
             (lit "id", id_or_null (body req))] |}.

Definition not_a_function : JsError :=
  mkError (lit "transport.handleRequest is not a function").

(** How a [POST /mcp] ends: the transport answers, the router writes the
    response, or the handler throws outside its [try]. [connect] is the
    settlement of [mcpServer.connect] on a fresh transport; [handleRequest]
    tells, for the transport in charge ([None] is the fresh one), how its
    [handleRequest] settles. *)
Inductive Answer : Type :=
| HandledBy (transport : option T)
| Written (response : Response)
| Thrown (error : JsError).

Definition post_mcp (connect : outcome unit)
  (handleRequest : option T -> Request -> outcome unit)
  (transports : list (jsstring * T)) (req : Request) : Answer :=
  match route_post transports req with
  | BadRequest => Written bad_request
  | ReuseInherited => Written (internal_error req not_a_function)
  | Reuse transport =>
      match handleRequest (Some transport) req with
      | Resolved _ => HandledBy (Some transport)
      | Rejected error => Written (internal_error req error)
      end
  | Initialize =>
      match connect with
      | Rejected error => Thrown error
      | Resolved _ =>
          match handleRequest None req with
          | Resolved _ => HandledBy None
          | Rejected error => Written (internal_error req error)
          end
      end
  end.

(** [handleSessionRequest], for [GET] and [DELETE]: the plain-text 400, or
    the transport the request is handed to ([None]: an inherited member,
    whose call throws outside any [try]). *)
Inductive SessionAnswer : Type :=
| InvalidSession
| HandedTo (transport : option T).

Definition handleSessionRequest (transports : list (jsstring * T)) (req : Request)
  : SessionAnswer :=
  match header_truthy (session_header req) with
  | None => InvalidSession
  | Some sessionId =>
      match stored transports sessionId with
      | OwnTransport transport => HandedTo (Some transport)
      | InheritedMember => HandedTo None
      | Undefined => InvalidSession
      end
  end.

(** [onsessioninitialized] and the [onclose] of a transport, on the table
    of sessions. *)
Definition session_initialized (newSessionId : jsstring) (transport : T)
  (transports : list (jsstring * T)) : list (jsstring * T) :=
  map_set newSessionId transport transports.

Definition session_closed (sessionId : option jsstring)
  (transports : list (jsstring * T)) : list (jsstring * T) :=
  match header_truthy sessionId with
  | Some sid => map_delete sid transports
  | None => transports
  end.

End Sessions.

End Router.
Import Router.

(* ===================================================================== *)
(** * Properties                                                           *)
(* ===================================================================== *)

Unset Implicit Arguments.

(** ** Strings *)

Section StringFacts.

Lemma indexOf_lt (c : N) (s : jsstring) (i : nat) :
  indexOf c s = Some i -> i < length s.
Proof.
  revert i. induction s as [|x s IH]; simpl; intros i Hi; [discriminate|].
  destruct (N.eqb x c).
  - injection Hi as <-. lia.
  - destruct (indexOf c s) as [j|]; simpl in Hi; [|discriminate].
    injection Hi as <-. specialize (IH j eq_refl). lia.
Qed.

Lemma indexOf_absent (c : N) (s : jsstring) :
  ~ In c s -> indexOf c s = None.
Proof.
  induction s as [|x s IH]; simpl; intros Hn; [reflexivity|].
  destruct (N.eqb_spec x c) as [->|Hx].
  - exfalso. apply Hn. now left.
  - rewrite IH; [reflexivity|]. intros H. apply Hn. now right.
Qed.

Lemma indexOf_first (c : N) (pre post : jsstring) :
  ~ In c pre -> indexOf c (pre ++ c :: post) = Some (length pre).
Proof.
  induction pre as [|x pre IH]; simpl; intros Hn.
  - now rewrite N.eqb_refl.
  - destruct (N.eqb_spec x c) as [->|Hx].
    + exfalso. apply Hn. now left.
    + rewrite IH; [reflexivity|]. intros H. apply Hn. now right.
Qed.

Lemma substring_prefix (pre post : jsstring) :
  substring (pre ++ post) 0 (Some (length pre)) = pre.
Proof.
  unfold substring. rewrite length_app.
  replace (Nat.min (length pre) (length pre + length post)) with (length pre) by lia.
  simpl. rewrite Nat.sub_0_r.
  rewrite firstn_app, Nat.sub_diag, firstn_all. simpl. apply app_nil_r.
Qed.

Lemma substring_suffix (pre : jsstring) (c : N) (post : jsstring) :
  substring (pre ++ c :: post) (length pre + 1) None = post.
Proof.
  unfold substring. rewrite length_app. simpl.
  replace (Nat.min (length pre + 1) (length pre + S (length post)))
    with (length pre + 1) by lia.
  replace (Nat.min (length pre + 1) (length pre + S (length post)))
    with (length pre + 1) by lia.
  replace (Nat.max (length pre + 1) (length pre + S (length post)))
    with (length pre + S (length post)) by lia.
  rewrite skipn_app.
  replace (length pre + 1 - length pre) with 1 by lia.
  rewrite skipn_all2 by lia. simpl.
  apply firstn_all2. lia.
Qed.

End StringFacts.

(** ** The transport: framing *)

Section Framing.

Variable JSON_parse : jsstring -> option json.
Variable toString : list N -> jsstring.

(** What one line of input raises, once the line feed has been seen. *)
Definition line_events (t : CustomStdioClientTransport) (line : jsstring)
  : list event :=
  match trim line with
  | [] => []
  | c :: r => process_line JSON_parse t (c :: r)
  end.

(** Lines, each closed by a line feed, as one text. *)
Definition unlines (lines : list jsstring) : jsstring :=
  concat (map (fun l => l ++ [LF]) lines).

Lemma process_buffer_unfold t buffer :
  process_buffer JSON_parse t buffer =
  match indexOf LF buffer with
  | None => ([], buffer)
  | Some newlineIndex =>
      let r := process_buffer JSON_parse t
                 (substring buffer (newlineIndex + 1) None) in
      (line_events t (substring buffer 0 (Some newlineIndex)) ++ fst r, snd r)
  end.
Proof.
  rewrite process_buffer_equation_1.
  unfold process_buffer_unfold_clause_1, line_events.
  generalize (inspect (indexOf LF buffer)). intros [[i|] H]; rewrite H.
  - cbv zeta. destruct (trim (substring buffer 0 (Some i))); reflexivity.
  - reflexivity.
Qed.

Lemma process_buffer_residue t buffer :
  ~ In LF buffer -> process_buffer JSON_parse t buffer = ([], buffer).
Proof.
  intros H. rewrite process_buffer_unfold, indexOf_absent; auto.
Qed.

Lemma process_buffer_line t line rest :
  ~ In LF line ->
  process_buffer JSON_parse t (line ++ LF :: rest) =
  (line_events t line ++ fst (process_buffer JSON_parse t rest),
   snd (process_buffer JSON_parse t rest)).
Proof.
  intros H. rewrite process_buffer_unfold, indexOf_first by assumption.
  cbv zeta. rewrite substring_prefix, substring_suffix. reflexivity.
Qed.

Lemma process_buffer_lines t lines rest :
  Forall (fun l => ~ In LF l) lines ->
  process_buffer JSON_parse t (unlines lines ++ rest) =
  (flat_map (line_events t) lines ++ fst (process_buffer JSON_parse t rest),
   snd (process_buffer JSON_parse t rest)).
Proof.
  induction 1 as [|l ls Hl _ IH]; simpl.
  - now destruct (process_buffer JSON_parse t rest).
  - unfold unlines in *. simpl. rewrite <- !app_assoc. simpl.
    rewrite process_buffer_line by assumption.
    rewrite IH. simpl. now rewrite app_assoc.
Qed.

(** Every text is a sequence of closed lines followed by an open one. *)
Fixpoint closed_lines (text : jsstring) : list jsstring * jsstring :=
  match text with
  | [] => ([], [])
  | c :: r =>
      let p := closed_lines r in
      if N.eqb c LF then ([] :: fst p, snd p)
      else match fst p with
           | [] => ([], c :: snd p)
           | l :: ls => ((c :: l) :: ls, snd p)
           end
  end.

Lemma closed_lines_spec text :
  text = unlines (fst (closed_lines text)) ++ snd (closed_lines text)
  /\ Forall (fun l => ~ In LF l) (fst (closed_lines text))
  /\ ~ In LF (snd (closed_lines text)).
Proof.
  induction text as [|c r (IH1 & IH2 & IH3)]; simpl.
  - split; [reflexivity|split; [constructor|intros []]].
  - destruct (N.eqb_spec c LF) as [->|Hc]; simpl.
    + split; [|split; [constructor; auto|assumption]].
      unfold unlines in *. simpl. now rewrite <- IH1.
    + destruct (fst (closed_lines r)) as [|l ls] eqn:E; simpl.
      * split; [|split; [constructor|]].
        -- unfold unlines in IH1. simpl in IH1. now rewrite <- IH1.
        -- intros [H|H]; [congruence|auto].
      * split; [|split; [|assumption]].
        -- unfold unlines in *. simpl in *. now rewrite <- IH1.
        -- inversion IH2; subst. constructor; auto.
           simpl. intros [H|H]; [congruence|auto].
Qed.

(** Draining a text is draining its closed lines and keeping the rest. *)
Lemma process_buffer_closed_lines t text :
  process_buffer JSON_parse t text =
  (flat_map (line_events t) (fst (closed_lines text)), snd (closed_lines text)).
Proof.
  destruct (closed_lines_spec text) as (H1 & H2 & H3).
  rewrite H1 at 1. rewrite process_buffer_lines by assumption.
  rewrite process_buffer_residue by assumption. simpl. now rewrite app_nil_r.
Qed.

(** The loop treats a text that arrives in two parts as it treats the
    whole. *)
Lemma process_buffer_app t x y :
  process_buffer JSON_parse t (x ++ y) =
  (fst (process_buffer JSON_parse t x)
     ++ fst (process_buffer JSON_parse t (snd (process_buffer JSON_parse t x) ++ y)),
   snd (process_buffer JSON_parse t (snd (process_buffer JSON_parse t x) ++ y))).
Proof.
  destruct (closed_lines_spec x) as (H1 & H2 & H3).
  rewrite (process_buffer_closed_lines t x). simpl.
  rewrite H1 at 1. rewrite <- app_assoc.
  now rewrite process_buffer_lines by assumption.
Qed.

Lemma process_buffer_callbacks t t' buffer :
  _onmessageCallback t = _onmessageCallback t' ->
  _onerrorCallback t = _onerrorCallback t' ->
  process_buffer JSON_parse t buffer = process_buffer JSON_parse t' buffer.
Proof.
  intros Hm He. rewrite !process_buffer_closed_lines. f_equal.
  apply flat_map_ext. intros l. unfold line_events, process_line.
  now rewrite Hm, He.
Qed.

Lemma process_buffer_leaves_no_LF t text :
  ~ In LF (snd (process_buffer JSON_parse t text)).
Proof.
  rewrite process_buffer_closed_lines. simpl. apply closed_lines_spec.
Qed.

(** Feeding chunks one by one is draining the concatenation of their
    decoded texts behind what the buffer held. *)
Lemma feed_concat t chunks :
  ~ In LF (_buffer t) ->
  fst (feed JSON_parse toString t chunks) =
    fst (process_buffer JSON_parse t (_buffer t ++ concat (map toString chunks)))
  /\ snd (feed JSON_parse toString t chunks) =
    with_buffer t
      (snd (process_buffer JSON_parse t (_buffer t ++ concat (map toString chunks)))).
Proof.
  revert t. induction chunks as [|data more IH]; intros t Hbuf; simpl.
  - rewrite app_nil_r, process_buffer_residue by assumption. simpl.
    split; [reflexivity|]. now destruct t.
  - unfold on_data. simpl.
    set (r1 := process_buffer JSON_parse t (_buffer t ++ toString data)).
    destruct (IH (with_buffer t (snd r1))) as [IH1 IH2].
    { simpl. apply process_buffer_leaves_no_LF. }
    simpl in IH1, IH2.
    rewrite (process_buffer_callbacks (with_buffer t (snd r1)) t) in IH1, IH2
      by reflexivity.
    rewrite app_assoc, process_buffer_app. fold r1. simpl.
    rewrite IH1, IH2. split; reflexivity.
Qed.

End Framing.

(** ** The transport: the [structuredContent] correction *)

Section Correction.

Lemma streq_true (a b : jsstring) : streq a b = true <-> a = b.
Proof.
  revert b. induction a as [|x a IH]; intros [|y b]; simpl;
    try (split; [discriminate|discriminate]); [tauto|].
  rewrite andb_true_iff, N.eqb_eq, IH. split.
  - intros [-> ->]. reflexivity.
  - intros H. injection H as -> ->. now split.
Qed.

Lemma streq_refl (a : jsstring) : streq a a = true.
Proof. now apply streq_true. Qed.

Lemma streq_false (a b : jsstring) : streq a b = false <-> a <> b.
Proof.
  rewrite <- streq_true. destruct (streq a b); split; congruence.
Qed.

Lemma assoc_set_same k v l : assoc k (assoc_set k v l) = Some v.
Proof.
  induction l as [|[k' v'] l IH]; simpl.
  - now rewrite streq_refl.
  - destruct (streq k' k) eqn:E; simpl; now rewrite E.
Qed.

Lemma assoc_set_other k k' v l :
  k' <> k -> assoc k' (assoc_set k v l) = assoc k' l.
Proof.
  intros Hk. induction l as [|[k0 v0] l IH]; simpl.
  - destruct (streq k k') eqn:E; [|reflexivity].
    apply streq_true in E. congruence.
  - destruct (streq k0 k) eqn:E; simpl.
    + apply streq_true in E. subst k0.
      destruct (streq k k') eqn:E'; [|reflexivity].
      apply streq_true in E'. congruence.
    + now rewrite IH.
Qed.

(** The place the correction is about. *)
Definition structuredContent_path : path :=
  [Key (lit "result"); Key (lit "structuredContent")].

(** A JSON-RPC 2.0 message whose member [result.structuredContent] is
    [null], said with paths. *)
Definition null_structuredContent (message : json) : Prop :=
  lookup message [Key (lit "jsonrpc")] = Some (JStr (lit "2.0"))
  /\ lookup message structuredContent_path = Some JNull.

(** [p] leads to the corrected place or to a value that contains it. *)
Definition above_structuredContent (p : path) : Prop :=
  p = [] \/ p = [Key (lit "result")] \/ p = structuredContent_path.

Lemma lookup_key message k :
  lookup message [Key k] = get message k.
Proof.
  simpl. destruct message as [| | | | |members]; simpl; try reflexivity.
  now destruct (assoc k members).
Qed.

Lemma needs_correction_spec message :
  needs_correction message = true <-> null_structuredContent message.
Proof.
  unfold null_structuredContent, structuredContent_path.
  rewrite lookup_key. split.
  - unfold needs_correction. intros H.
    apply andb_true_iff in H. destruct H as [H Hsc].
    apply andb_true_iff in H. destruct H as [H Hres].
    apply andb_true_iff in H. destruct H as [_ Hrpc].
    destruct (get message (lit "jsonrpc")) as [[| | |v| |]|]; try discriminate.
    apply streq_true in Hrpc. subst v. split; [reflexivity|].
    destruct message as [| | | | |members]; simpl in *; try discriminate.
    destruct (assoc (lit "result") members) as [result|]; [|discriminate].
    destruct result as [| | | | |rmembers]; simpl in *; try discriminate.
    destruct (assoc (lit "structuredContent") rmembers) as [[| | | | |]|];
      try discriminate. reflexivity.
  - intros [Hrpc Hsc].
    destruct message as [| | | | |members]; simpl in *; try discriminate.
    destruct (assoc (lit "result") members) as [result|] eqn:Er; [|discriminate].
    destruct result as [| | | | |rmembers]; simpl in *; try discriminate.
    destruct (assoc (lit "structuredContent") rmembers) as [sc|] eqn:Es;
      [|discriminate].
    injection Hsc as ->.
    unfold needs_correction. simpl. rewrite Hrpc, Er. simpl. rewrite Es.
    reflexivity.
Qed.

Lemma lookup_no_child v s p :
  (forall k, get v k = None) -> (forall items, v <> JArr items) ->
  lookup v (s :: p) = None.
Proof.
  intros Hg Ha. simpl. destruct s as [k|i]; destruct v; simpl; try reflexivity.
  - specialize (Hg k). simpl in Hg. now rewrite Hg.
  - exfalso. now apply (Ha items).
Qed.

(** The assignment changes what sits at the path and nothing beside it. *)
Lemma assign_lookup message p :
  lookup message structuredContent_path = Some JNull ->
  lookup (assign_structuredContent message) structuredContent_path = Some (JObj [])
  /\ (~ above_structuredContent p ->
      lookup (assign_structuredContent message) p = lookup message p).
Proof.
  unfold structuredContent_path, above_structuredContent. intros H.
  destruct message as [| | | | |members]; simpl in H; try discriminate.
  destruct (assoc (lit "result") members) as [result|] eqn:Er; [|discriminate].
  destruct result as [| | | | |rmembers]; simpl in H; try discriminate.
  destruct (assoc (lit "structuredContent") rmembers) as [sc|] eqn:Es;
    [|discriminate].
  injection H as ->.
  unfold assign_structuredContent. rewrite Er. split.
  - simpl. rewrite assoc_set_same. simpl. now rewrite assoc_set_same.
  - intros Hp.
    destruct p as [|s p]; [exfalso; apply Hp; now left|].
    destruct s as [k|i]; [|reflexivity].
    destruct (jsstring_dec k (lit "result")) as [->|Hk].
    + cbn [lookup child]. rewrite assoc_set_same, Er.
      destruct p as [|s' p']; [exfalso; apply Hp; right; now left|].
      destruct s' as [k'|i']; [|reflexivity].
      destruct (jsstring_dec k' (lit "structuredContent")) as [->|Hk'].
      * cbn [lookup child]. rewrite assoc_set_same, Es.
        destruct p' as [|s'' p'']; [exfalso; apply Hp; right; now right|].
        now destruct s''.
      * cbn [lookup child]. now rewrite assoc_set_other.
    + cbn [lookup child]. now rewrite assoc_set_other.
Qed.

End Correction.

(** ** Claims about the transport *)

(** [text] is the one-line JSON text of [message]: it holds no line feed,
    is not blank, and [JSON.parse] maps its trimmed form to [message]. *)
Definition one_line_json (JSON_parse : jsstring -> option json)
  (message : json) (text : jsstring) : Prop :=
  indexOf LF text = None
  /\ trim text <> []
  /\ JSON_parse (trim text) = Some message.

Lemma indexOf_None_absent (c : N) (s : jsstring) :
  indexOf c s = None -> ~ In c s.
Proof.
  induction s as [|x s IH]; simpl; intros H; [tauto|].
  destruct (N.eqb_spec x c) as [->|Hx]; [discriminate|].
  destruct (indexOf c s); [discriminate|].
  intros [E|E]; [congruence|]. now apply IH.
Qed.

Lemma line_events_message JSON_parse t message text :
  one_line_json JSON_parse message text ->
  line_events JSON_parse t text =
  if _onmessageCallback t then [OnMessage (correct message)] else [].
Proof.
  intros (_ & Hne & Hp). unfold line_events.
  destruct (trim text) as [|c r] eqn:E; [congruence|].
  unfold process_line. now rewrite Hp.
Qed.

Lemma line_events_malformed JSON_parse t line :
  trim line <> [] -> JSON_parse (trim line) = None ->
  line_events JSON_parse t line =
  if _onerrorCallback t then [OnError (parse_failure (trim line))] else [].
Proof.
  intros Hne Hp. unfold line_events.
  destruct (trim line) as [|c r] eqn:E; [congruence|].
  unfold process_line. now rewrite Hp.
Qed.

Lemma process_buffer_empty JSON_parse t :
  process_buffer JSON_parse t [] = ([], []).
Proof. now apply process_buffer_residue. Qed.

(** C4 (as the code has it): messages written one per line, each closed
    by a single line feed, reach the message callback in order and once
    each, whatever the chunks are in which the text arrives, provided the
    decoded chunks put end to end are that text; what is delivered is each
    parsed message after the [structuredContent] correction; nothing is
    reported as an error and the buffer ends empty. *)
Theorem framing_round_trip :
  forall (JSON_parse : jsstring -> option json) (toString : list N -> jsstring)
         (t : CustomStdioClientTransport)
         (messages : list json) (texts : list jsstring) (chunks : list (list N)),
    _onmessageCallback t = true ->
    _buffer t = [] ->
    Forall2 (one_line_json JSON_parse) messages texts ->
    concat (map toString chunks) = unlines texts ->
    fst (feed JSON_parse toString t chunks)
      = map (fun m => OnMessage (correct m)) messages
    /\ _buffer (snd (feed JSON_parse toString t chunks)) = [].
Proof.
  intros P toS t messages texts chunks Hcb Hbuf Hall Hcat.
  destruct (feed_concat P toS t chunks) as [H1 H2].
  { rewrite Hbuf. intros []. }
  rewrite H1, H2, Hbuf, Hcat. simpl.
  rewrite <- (app_nil_r (unlines texts)).
  rewrite process_buffer_lines.
  - rewrite process_buffer_empty. simpl. rewrite app_nil_r. split; [|reflexivity].
    clear - Hall Hcb. induction Hall as [|m text ms ts Hone _ IH]; [reflexivity|].
    simpl. rewrite (line_events_message _ t _ _ Hone), Hcb, IH. reflexivity.
  - clear - Hall. induction Hall as [|m text ms ts Hone _ IH]; constructor; auto.
    apply indexOf_None_absent, Hone.
Qed.

(** The messages and the chunks of an exchange of two replies, the second
    chunk boundary falling inside the first message. *)
Definition sample_messages : list json :=
  [JObj [(lit "jsonrpc", JStr (lit "2.0")); (lit "id", JNum 1);
         (lit "result", JObj [(lit "tools", JArr [])])];
   JObj [(lit "jsonrpc", JStr (lit "2.0")); (lit "method", JStr (lit "ping"))]].

Definition sample_texts : list jsstring :=
  [quoted "{'jsonrpc':'2.0','id':1,'result':{'tools':[]}}";
   quoted "{'jsonrpc':'2.0','method':'ping'}"].

Definition sample_chunks : list (list N) :=
  [firstn 17 (unlines sample_texts);
   firstn 40 (skipn 17 (unlines sample_texts));
   skipn 57 (unlines sample_texts)].

(** A transport whose client has installed both callbacks. *)
Definition connected : CustomStdioClientTransport :=
  set_onerror (set_onmessage new_transport).

Lemma framing_round_trip_witness :
  fst (feed Reference.JSON_parse Reference.toString connected sample_chunks)
    = map (fun m => OnMessage (correct m)) sample_messages
  /\ _buffer (snd (feed Reference.JSON_parse Reference.toString connected
                     sample_chunks)) = [].
Proof.
  apply (framing_round_trip Reference.JSON_parse Reference.toString connected
           sample_messages sample_texts sample_chunks).
  - reflexivity.
  - reflexivity.
  - apply Forall2_cons; [|apply Forall2_cons; [|apply Forall2_nil]];
      (split; [vm_compute; reflexivity
              |split; [vm_compute; discriminate | vm_compute; reflexivity]]).
  - vm_compute. reflexivity.
Defined.

(** A reply whose [structuredContent] is [null], on one line. *)
Definition null_reply : json :=
  JObj [(lit "jsonrpc", JStr (lit "2.0")); (lit "id", JNum 7);
        (lit "result", JObj [(lit "content", JArr []);
                             (lit "structuredContent", JNull)])].

Definition null_reply_text : jsstring :=
  quoted "{'jsonrpc':'2.0','id':7,'result':{'content':[],'structuredContent':null}}".

(** C4 as stated fails: the text of [null_reply], closed by a line feed
    and fed as one chunk, is parsed to [null_reply], yet the message the
    callback receives is another one. *)
Lemma framing_delivers_corrected_reply :
  Reference.JSON_parse null_reply_text = Some null_reply
  /\ Reference.toString (null_reply_text ++ [LF]) = null_reply_text ++ [LF]
  /\ delivered (fst (feed Reference.JSON_parse Reference.toString connected
                       [null_reply_text ++ [LF]]))
     <> [null_reply].
Proof.
  split; [vm_compute; reflexivity|].
  split; [vm_compute; reflexivity|].
  vm_compute. discriminate.
Qed.

(** On bytes below 128 the reference decoder is the identity, so every
    way of cutting an ASCII text into chunks meets the hypothesis of
    [framing_round_trip]. *)
Lemma toString_ascii (bytes : list N) :
  Forall (fun b => (b <? 128)%N = true) bytes ->
  Reference.toString bytes = bytes.
Proof.
  unfold Reference.toString.
  induction 1 as [|b r Hb _ IH]; [reflexivity|].
  change (Reference.utf8_run Reference.utf8_init (b :: r))
    with (fst (Reference.utf8_step Reference.utf8_init b)
            ++ Reference.utf8_run (snd (Reference.utf8_step Reference.utf8_init b)) r).
  assert (Hstep : Reference.utf8_step Reference.utf8_init b
                  = ([b], Reference.utf8_init)).
  { unfold Reference.utf8_step. simpl. unfold Reference.utf8_lead.
    apply N.ltb_lt in Hb.
    destruct (N.leb_spec b 127) as [_|Hgt]; [reflexivity|lia]. }
  rewrite Hstep. simpl. now rewrite IH.
Qed.

Lemma concat_toString_ascii (chunks : list (list N)) :
  Forall (fun b => (b <? 128)%N = true) (concat chunks) ->
  concat (map Reference.toString chunks) = concat chunks.
Proof.
  induction chunks as [|c cs IH]; simpl; intros H; [reflexivity|].
  apply Forall_app in H. destruct H as [Hc Hcs].
  now rewrite toString_ascii, IH.
Qed.

(** A message with a character outside ASCII, as the bytes of its UTF-8
    line, whole and cut inside the two-byte character. *)
Definition accented_line : list N :=
  [123; 34; 97; 34; 58; 34; 195; 169; 34; 125; 10]%N.

Definition accented_cut : list (list N) :=
  [[123; 34; 97; 34; 58; 34; 195]; [169; 34; 125; 10]]%N.

(** A chunk boundary inside a multi-byte character is not tolerated: each
    chunk is decoded on its own, and the two halves of the character come
    out as two replacement characters. *)
Lemma cut_inside_character :
  concat accented_cut = accented_line
  /\ delivered (fst (feed Reference.JSON_parse Reference.toString connected
                       [accented_line]))
     = [JObj [(lit "a", JStr [233%N])]]
  /\ delivered (fst (feed Reference.JSON_parse Reference.toString connected
                       accented_cut))
     = [JObj [(lit "a", JStr [65533%N; 65533%N])]].
Proof. repeat split; vm_compute; reflexivity. Qed.

(** C5: a line that is not JSON is reported once through the error
    callback and dropped; the lines before it and the lines after it, in
    the same chunk or in later ones, are handled as if it were not there,
    and what follows the last line feed stays buffered. *)
Theorem malformed_line_skipped :
  forall (JSON_parse : jsstring -> option json) (toString : list N -> jsstring)
         (t : CustomStdioClientTransport) (chunks : list (list N))
         (before : list jsstring) (bad : jsstring)
         (later : list jsstring) (tail : jsstring),
    _onerrorCallback t = true ->
    indexOf LF (_buffer t) = None ->
    Forall (fun l => indexOf LF l = None) before ->
    indexOf LF bad = None ->
    trim bad <> [] ->
    JSON_parse (trim bad) = None ->
    Forall (fun l => indexOf LF l = None) later ->
    indexOf LF tail = None ->
    _buffer t ++ concat (map toString chunks)
      = unlines before ++ bad ++ [LF] ++ unlines later ++ tail ->
    let events := fst (feed JSON_parse toString t chunks) in
    events = flat_map (line_events JSON_parse t) before
               ++ [OnError (parse_failure (trim bad))]
               ++ flat_map (line_events JSON_parse t) later
    /\ _buffer (snd (feed JSON_parse toString t chunks)) = tail
    /\ (forall good message,
          In good later ->
          one_line_json JSON_parse message good ->
          _onmessageCallback t = true ->
          In (OnMessage (correct message)) events).
Proof.
  intros P toS t chunks before bad later tail
         Herr Hbuf Hbefore Hbad Hne Hparse Hlater Htail Htext events.
  assert (Hev : events = flat_map (line_events P t) before
                  ++ [OnError (parse_failure (trim bad))]
                  ++ flat_map (line_events P t) later
                /\ _buffer (snd (feed P toS t chunks)) = tail).
  { subst events.
    destruct (feed_concat P toS t chunks) as [H1 H2].
    { now apply indexOf_None_absent. }
    rewrite H1, H2, Htext. simpl.
    rewrite process_buffer_lines
      by (eapply Forall_impl; [|exact Hbefore]; apply indexOf_None_absent).
    simpl. rewrite process_buffer_line by now apply indexOf_None_absent.
    rewrite process_buffer_lines
      by (eapply Forall_impl; [|exact Hlater]; apply indexOf_None_absent).
    rewrite process_buffer_residue by now apply indexOf_None_absent.
    simpl. rewrite app_nil_r.
    rewrite (line_events_malformed P t bad Hne Hparse), Herr.
    split; reflexivity. }
  destruct Hev as [Hev Hb]. split; [exact Hev|]. split; [exact Hb|].
  intros good message Hin Hone Hcb. rewrite Hev.
  apply in_or_app. right. apply in_or_app. right.
  apply in_flat_map. exists good. split; [exact Hin|].
  rewrite (line_events_message _ t _ _ Hone), Hcb. now left.
Qed.

(** Two chunks: a reply, a malformed line and a ping in the first one,
    the start of a further message in the second. *)
Definition noisy_chunks : list (list N) :=
  [quoted "{'id':1}" ++ [LF] ++ lit "{oops" ++ [LF] ++ quoted "{'method':'ping'}" ++ [LF];
   quoted "{'id':"].

Lemma malformed_line_skipped_witness :
  let events :=
    fst (feed Reference.JSON_parse Reference.toString connected noisy_chunks) in
  events = flat_map (line_events Reference.JSON_parse connected) [quoted "{'id':1}"]
             ++ [OnError (parse_failure (trim (lit "{oops")))]
             ++ flat_map (line_events Reference.JSON_parse connected)
                  [quoted "{'method':'ping'}"]
  /\ _buffer (snd (feed Reference.JSON_parse Reference.toString connected
                     noisy_chunks)) = quoted "{'id':"
  /\ (forall good message,
        In good [quoted "{'method':'ping'}"] ->
        one_line_json Reference.JSON_parse message good ->
        _onmessageCallback connected = true ->
        In (OnMessage (correct message)) events).
Proof.
  apply (malformed_line_skipped Reference.JSON_parse Reference.toString
           connected noisy_chunks
           [quoted "{'id':1}"] (lit "{oops") [quoted "{'method':'ping'}"]
           (quoted "{'id':")).
  - reflexivity.
  - reflexivity.
  - repeat constructor.
  - reflexivity.
  - vm_compute. discriminate.
  - vm_compute. reflexivity.
  - repeat constructor.
  - reflexivity.
  - vm_compute. reflexivity.
Defined.

(** The first revision of the handler does not have the property: its
    single [try] ends at the malformed line, so the ping behind it in the
    same chunk is lost, and it names the whole chunk in its report. *)
Lemma legacy_handler_loses_later_lines :
  Legacy.on_data Reference.JSON_parse Reference.toString connected
    (lit "{oops" ++ [LF] ++ quoted "{'method':'ping'}" ++ [LF])
  = [OnError (lit "Failed to parse message from child process: "
                ++ lit "{oops" ++ [LF] ++ quoted "{'method':'ping'}" ++ [LF])].
Proof. vm_compute. reflexivity. Qed.

(** C6: the message handed to the callback is the parsed one, except that
    a JSON-RPC 2.0 message whose [result.structuredContent] is [null] gets
    [{}] there. The rewrite happens for those messages and no others, and
    it changes nothing else: every other path leads to the same value as
    before, so a [null] anywhere else stays a [null] and none appears. *)
Theorem structuredContent_correction :
  forall (JSON_parse : jsstring -> option json) (t : CustomStdioClientTransport)
         (line : jsstring) (message : json),
    (delivered (process_line JSON_parse t line)
       = match JSON_parse line with
         | Some parsed => if _onmessageCallback t then [correct parsed] else []
         | None => []
         end)
    /\ (null_structuredContent message ->
        lookup (correct message) structuredContent_path = Some (JObj []))
    /\ (correct message <> message <-> null_structuredContent message)
    /\ (forall p, ~ above_structuredContent p ->
                  lookup (correct message) p = lookup message p)
    /\ (forall p, p <> structuredContent_path ->
                  (lookup (correct message) p = Some JNull
                   <-> lookup message p = Some JNull)).
Proof.
  intros P t line message.
  assert (Hkeep : ~ null_structuredContent message -> correct message = message).
  { intros Hn. unfold correct.
    destruct (needs_correction message) eqn:E; [|reflexivity].
    apply needs_correction_spec in E. contradiction. }
  assert (Hset : null_structuredContent message ->
                 lookup (correct message) structuredContent_path = Some (JObj [])
                 /\ forall p, ~ above_structuredContent p ->
                              lookup (correct message) p = lookup message p).
  { intros Hn. unfold correct.
    rewrite (proj2 (needs_correction_spec message) Hn).
    destruct Hn as [_ Hsc]. split.
    - apply (proj1 (assign_lookup message [] Hsc)).
    - intros p Hp. now apply (proj2 (assign_lookup message p Hsc)). }
  assert (Hdec : null_structuredContent message \/ ~ null_structuredContent message).
  { destruct (needs_correction message) eqn:E.
    - left. now apply needs_correction_spec.
    - right. intros H. apply needs_correction_spec in H. congruence. }
  split; [|split; [|split; [|split]]].
  - unfold process_line. destruct (P line); [|now destruct (_onerrorCallback t)].
    now destruct (_onmessageCallback t).
  - intros Hn. now apply Hset.
  - split.
    + intros Hne. destruct Hdec as [Hn|Hn]; [exact Hn|].
      exfalso. now apply Hne, Hkeep.
    + intros Hn Heq. destruct (Hset Hn) as [H1 _]. rewrite Heq in H1.
      destruct Hn as [_ Hsc]. congruence.
  - intros p Hp. destruct Hdec as [Hn|Hn]; [now apply Hset|now rewrite Hkeep].
  - intros p Hp. destruct Hdec as [Hn|Hn]; [|now rewrite Hkeep].
    destruct (Hset Hn) as [_ Hother].
    assert (Hobj : forall m, null_structuredContent m ->
                   (exists l, m = JObj l)
                   /\ exists l, lookup m [Key (lit "result")] = Some (JObj l)).
    { clear. intros m [_ H]. unfold structuredContent_path in H.
      destruct m as [| | | | |members]; simpl in H; try discriminate.
      split; [eauto|]. simpl.
      destruct (assoc (lit "result") members) as [[| | | | |rm]|];
        simpl in H; try discriminate. eauto. }
    destruct p as [|s p'].
    { destruct (Hobj _ Hn) as [[l ->] _]. unfold correct.
      rewrite (proj2 (needs_correction_spec _) Hn). simpl.
      destruct (assoc (lit "result") l) as [[| | | | |rm]|];
        split; discriminate. }
    destruct (list_eq_dec
                (fun a b : step => ltac:(decide equality; try apply jsstring_dec;
                                         apply Nat.eq_dec) : {a = b} + {a <> b})
                (s :: p') [Key (lit "result")]) as [E|E].
    { rewrite E. destruct (Hobj _ Hn) as [_ [l Hl]]. rewrite Hl.
      destruct (Hobj _ Hn) as [[l0 ->] _]. unfold correct.
      rewrite (proj2 (needs_correction_spec _) Hn).
      unfold assign_structuredContent. simpl in Hl.
      destruct (assoc (lit "result") l0) as [r|] eqn:Er; [|discriminate].
      injection Hl as ->. cbn [lookup child]. rewrite assoc_set_same.
      split; discriminate. }
    rewrite Hother; [tauto|].
    intros [H|[H|H]]; [discriminate|contradiction|contradiction].
Qed.

(** ** The manager: what [spawnServers] collects *)

(** The child an entry of the configuration brings up: the entry is not
    disabled, [spawn] returns and [client.connect] resolves. *)
Definition started (spawn : jsstring -> McpServerConfig -> outcome ChildProcess)
  (entry : jsstring * McpServerConfig) : option ChildProcess :=
  match disabled (snd entry) with
  | Some true => None
  | _ =>
      match spawn (fst entry) (snd entry) with
      | Resolved child =>
          match connect child with
          | Resolved _ => Some child
          | Rejected _ => None
          end
      | Rejected _ => None
      end
  end.

(** The items of a list call that resolved with an array. *)
Definition listed {A : Type} (r : outcome (field A)) : list A :=
  match r with
  | Resolved (Items l) => l
  | _ => []
  end.

Section Discovery.

Variable spawn : jsstring -> McpServerConfig -> outcome ChildProcess.

Definition discovered_tools (entry : jsstring * McpServerConfig) :=
  match started spawn entry with
  | Some child => map (mkTool (fst entry)) (listed (listTools child))
  | None => []
  end.

Definition discovered_resources (entry : jsstring * McpServerConfig) :=
  match started spawn entry with
  | Some child => map (mkResource (fst entry)) (listed (listResources child))
  | None => []
  end.

Definition discovered_prompts (entry : jsstring * McpServerConfig) :=
  match started spawn entry with
  | Some child => map (mkPrompt (fst entry)) (listed (listPrompts child))
  | None => []
  end.

Lemma discoverTools_elements a c :
  elements (fst (discoverTools a c)) = listed (listTools (peer c)).
Proof.
  unfold discoverTools. now destruct (listTools (peer c)) as [[l|raw]|e].
Qed.

Lemma discoverResources_elements a c :
  elements (fst (discoverResources a c)) = listed (listResources (peer c)).
Proof.
  unfold discoverResources. now destruct (listResources (peer c)) as [[l|raw]|e].
Qed.

Lemma discoverPrompts_elements a c :
  elements (fst (discoverPrompts a c)) = listed (listPrompts (peer c)).
Proof.
  unfold discoverPrompts. now destruct (listPrompts (peer c)) as [[l|raw]|e].
Qed.

(** None of the three [try] blocks ever reaches its [console.warn]. *)
Lemma discovery_never_warns a c :
  existsb isWarn (snd (discoverTools a c)) = false
  /\ existsb isWarn (snd (discoverResources a c)) = false
  /\ existsb isWarn (snd (discoverPrompts a c)) = false.
Proof.
  unfold discoverTools, discoverResources, discoverPrompts.
  destruct (listTools (peer c)) as [[?|?]|?];
    destruct (listResources (peer c)) as [[?|?]|?];
    destruct (listPrompts (peer c)) as [[?|?]|?]; repeat split.
Qed.

Ltac spawn_cases entry :=
  unfold spawnServer, started;
  destruct (disabled (snd entry)) as [[|]|];
  try destruct (spawn (fst entry) (snd entry)) as [?child|?];
  try match goal with
      | |- context [connect ?c] => destruct (connect c) as [?|?]
      end;
  simpl.

Lemma spawnServer_tools sm entry :
  unifiedTools (spawnServer spawn sm entry)
  = unifiedTools sm ++ discovered_tools entry.
Proof.
  unfold discovered_tools. spawn_cases entry;
    rewrite ?app_nil_r, ?discoverTools_elements; reflexivity.
Qed.

Lemma spawnServer_resources sm entry :
  unifiedResources (spawnServer spawn sm entry)
  = unifiedResources sm ++ discovered_resources entry.
Proof.
  unfold discovered_resources. spawn_cases entry;
    rewrite ?app_nil_r, ?discoverResources_elements; reflexivity.
Qed.

Lemma spawnServer_prompts sm entry :
  unifiedPrompts (spawnServer spawn sm entry)
  = unifiedPrompts sm ++ discovered_prompts entry.
Proof.
  unfold discovered_prompts. spawn_cases entry;
    rewrite ?app_nil_r, ?discoverPrompts_elements; reflexivity.
Qed.

Lemma spawnServer_warns sm entry :
  existsb isWarn (console (spawnServer spawn sm entry))
  = existsb isWarn (console sm).
Proof.
  spawn_cases entry; rewrite ?existsb_app; simpl; rewrite ?orb_false_r;
    try reflexivity.
  all: match goal with
       | |- context [discoverTools ?a ?c] =>
           destruct (discovery_never_warns a c) as (H1 & H2 & H3);
           rewrite H1, H2, H3; simpl; rewrite ?orb_false_r; reflexivity
       end.
Qed.

Lemma spawn_loop_tools entries sm :
  unifiedTools (fold_left (spawnServer spawn) entries sm)
  = unifiedTools sm ++ flat_map discovered_tools entries.
Proof.
  revert sm. induction entries as [|e es IH]; intros sm; simpl.
  - now rewrite app_nil_r.
  - now rewrite IH, spawnServer_tools, app_assoc.
Qed.

Lemma spawn_loop_resources entries sm :
  unifiedResources (fold_left (spawnServer spawn) entries sm)
  = unifiedResources sm ++ flat_map discovered_resources entries.
Proof.
  revert sm. induction entries as [|e es IH]; intros sm; simpl.
  - now rewrite app_nil_r.
  - now rewrite IH, spawnServer_resources, app_assoc.
Qed.

Lemma spawn_loop_prompts entries sm :
  unifiedPrompts (fold_left (spawnServer spawn) entries sm)
  = unifiedPrompts sm ++ flat_map discovered_prompts entries.
Proof.
  revert sm. induction entries as [|e es IH]; intros sm; simpl.
  - now rewrite app_nil_r.
  - now rewrite IH, spawnServer_prompts, app_assoc.
Qed.

Lemma spawn_loop_warns entries sm :
  existsb isWarn (console (fold_left (spawnServer spawn) entries sm))
  = existsb isWarn (console sm).
Proof.
  revert sm. induction entries as [|e es IH]; intros sm; simpl; [reflexivity|].
  now rewrite IH, spawnServer_warns.
Qed.

(** What [spawnServers] leaves in the three collections, started from a
    fresh manager with its configuration loaded. *)
Lemma spawnServers_collects cfg sm :
  spawnServers spawn (loadConfig cfg new_manager) = Resolved sm ->
  unifiedTools sm = flat_map discovered_tools (mcpServers cfg)
  /\ unifiedResources sm = flat_map discovered_resources (mcpServers cfg)
  /\ unifiedPrompts sm = flat_map discovered_prompts (mcpServers cfg)
  /\ existsb isWarn (console sm) = false.
Proof.
  unfold spawnServers. simpl. intros H. injection H as <-. simpl.
  rewrite spawn_loop_tools, spawn_loop_resources, spawn_loop_prompts.
  rewrite existsb_app, spawn_loop_warns. simpl. repeat split.
Qed.

Lemma spawnServers_returns cfg :
  exists sm, spawnServers spawn (loadConfig cfg new_manager) = Resolved sm.
Proof. unfold spawnServers. simpl. eauto. Qed.

End Discovery.

(** ** Claims about discovery and the registry *)

(** Children used in the examples. *)
Definition method_not_found : JsError := mkError (lit "Method not found").

Definition child_with (tools : outcome (field ClientToolResponse))
  (resources : outcome (field ClientResourceResponse))
  (prompts : outcome (field ClientPromptResponse))
  (answer : outcome json) : ChildProcess :=
  {| connect := Resolved tt;
     listTools := tools;
     listResources := resources;
     listPrompts := prompts;
     callTool := fun _ => answer;
     readResource := fun _ => answer |}.

Definition tool_named (n : string) : ClientToolResponse :=
  {| tool_name := lit n; tool_title := None; tool_description := None;
     tool_inputSchema := None; tool_outputSchema := None |}.

Definition resource_at (u : string) : ClientResourceResponse :=
  {| resource_uri := lit u; resource_name := None; resource_title := None;
     resource_description := None; resource_mimeType := None |}.

Definition prompt_named (n : string) : ClientPromptResponse :=
  {| prompt_name := lit n; prompt_title := None; prompt_description := None;
     prompt_argsSchema := None |}.

Definition stdio (cmd : string) : McpServerConfig :=
  {| disabled := None; command := lit cmd; args := []; env := []; cwd := None |}.

(** A child whose [tools/list] reply has no [tools] member, whose
    [resources/list] fails, and whose [prompts/list] is in order. *)
Definition files_child : ChildProcess :=
  child_with (Resolved (NotArray None))
             (Rejected method_not_found)
             (Resolved (Items [prompt_named "summarize"]))
             (Rejected method_not_found).

Definition files_config : McpRouterConfig :=
  {| mcpServers := [(lit "files", stdio "files-server")] |}.

Definition files_spawn (serverName : jsstring) (c : McpServerConfig)
  : outcome ChildProcess := Resolved files_child.

(** C8 at a failing input: the reply without a [tools] array counts as no
    tools, the failed [resources/list] as no resources, the prompt is
    registered and the child stays in the map; but [spawnServers] writes
    no warning, while the same reply makes the rebuild path warn. *)
Theorem malformed_list_is_not_warned :
  exists sm,
    spawnServers files_spawn (loadConfig files_config new_manager) = Resolved sm
    /\ unifiedTools sm = []
    /\ unifiedResources sm = []
    /\ map up_name (unifiedPrompts sm) = [lit "files_summarize"]
    /\ map_has (lit "files") (spawnedServers sm) = true
    /\ existsb isWarn (console sm) = false
    /\ existsb isWarn
         (console (settleTools {| client_name := lit "files"; peer := files_child |}
                     (listTools files_child) sm)) = true.
Proof.
  eexists. split; [reflexivity|]. repeat split; vm_compute; reflexivity.
Qed.

(** Namespaced names are told apart by their aliases when no alias holds
    an underscore. *)
Definition UNDERSCORE : N := 95%N.




Lemma indexOf_None_iff (c : N) (s : jsstring) :
  indexOf c s = None <-> ~ In c s.
Proof. split; [apply indexOf_None_absent | apply indexOf_absent]. Qed.




(** Two servers with tools of their own, as in the README. *)
Definition twin_config : McpRouterConfig :=
  {| mcpServers := [(lit "weather", stdio "node"); (lit "database", stdio "python")] |}.

Definition twin_spawn (serverName : jsstring) (c : McpServerConfig)
  : outcome ChildProcess :=
  Resolved
    (child_with
       (Resolved (Items [tool_named "get"; tool_named "put"]))
       (Resolved (Items [resource_at "users://active"]))
       (Resolved (Items [prompt_named "organize"]))
       (Resolved (JObj [(lit "content", JArr [])]))).



(** ** The registrations of [main] *)

(** The registration made for a tool, a resource and a prompt. *)
Definition tool_registration (tm : UnifiedToolMetadata) (shape : option ZodRawShape)
  : RegisteredTool :=
  {| rt_name := ut_name tm; rt_title := ut_title tm;
     rt_description := ut_description tm; rt_inputSchema := shape;
     rt_handler := ProxyHandler tm |}.

Definition resource_registration (rm : UnifiedResourceMetadata) : RegisteredResource :=
  {| rr_name := ur_uri rm; rr_uri := originalResourceUri rm;
     rr_title := ur_title rm; rr_description := ur_description rm;
     rr_mimeType := ur_mimeType rm; rr_handler := rm |}.

Definition prompt_registration (pm : UnifiedPromptMetadata) (shape : option ZodRawShape)
  : RegisteredPrompt :=
  {| rp_name := up_name pm; rp_title := up_title pm;
     rp_description := up_description pm; rp_argsSchema := shape;
     rp_handler := pm |}.

Lemma register_tools_spec tools srv0 srv :
  register_tools tools srv0 = Resolved srv ->
  registeredResources srv = registeredResources srv0
  /\ registeredPrompts srv = registeredPrompts srv0
  /\ exists shapes,
       length shapes = length tools
       /\ registeredTools srv
          = registeredTools srv0
              ++ flat_map (fun p => [tool_registration (fst p) (snd p); add_tool])
                   (combine tools shapes).
Proof.
  revert srv0. induction tools as [|tm tools IH]; intros srv0 H; simpl in H.
  - injection H as <-. repeat split. exists []. simpl. now rewrite app_nil_r.
  - destruct (convert_optional (ut_inputSchema tm)) as [shape|e]; [|discriminate].
    apply IH in H. destruct H as (Hr & Hp & shapes & Hlen & Ht).
    simpl in Hr, Hp, Ht. split; [exact Hr|]. split; [exact Hp|].
    exists (shape :: shapes). split; [simpl; now rewrite Hlen|].
    rewrite Ht. simpl. now rewrite <- !app_assoc.
Qed.

Lemma register_resources_spec resources srv0 :
  registeredTools (register_resources resources srv0) = registeredTools srv0
  /\ registeredPrompts (register_resources resources srv0) = registeredPrompts srv0
  /\ registeredResources (register_resources resources srv0)
     = registeredResources srv0 ++ map resource_registration resources.
Proof.
  revert srv0. induction resources as [|rm rs IH]; intros srv0; simpl.
  - repeat split. now rewrite app_nil_r.
  - destruct (IH (registerResource
                    {| rr_name := ur_uri rm; rr_uri := originalResourceUri rm;
                       rr_title := ur_title rm; rr_description := ur_description rm;
                       rr_mimeType := ur_mimeType rm; rr_handler := rm |} srv0))
      as (Ht & Hp & Hr).
    rewrite Ht, Hp, Hr. simpl. repeat split. now rewrite <- app_assoc.
Qed.

Lemma register_prompts_spec prompts srv0 srv :
  register_prompts prompts srv0 = Resolved srv ->
  registeredTools srv = registeredTools srv0
  /\ registeredResources srv = registeredResources srv0
  /\ exists shapes,
       length shapes = length prompts
       /\ registeredPrompts srv
          = registeredPrompts srv0
              ++ map (fun p => prompt_registration (fst p) (snd p))
                   (combine prompts shapes).
Proof.
  revert srv0. induction prompts as [|pm prompts IH]; intros srv0 H; simpl in H.
  - injection H as <-. repeat split. exists []. simpl. now rewrite app_nil_r.
  - destruct (convert_optional (up_argsSchema pm)) as [shape|e]; [|discriminate].
    apply IH in H. destruct H as (Ht & Hr & shapes & Hlen & Hp).
    simpl in Hr, Hp, Ht. split; [exact Ht|]. split; [exact Hr|].
    exists (shape :: shapes). split; [simpl; now rewrite Hlen|].
    rewrite Hp. simpl. now rewrite <- !app_assoc.
Qed.

(** Everything on the outward server after [main] has registered. *)
Lemma register_all_spec sm srv :
  register_all sm = Resolved srv ->
  (exists shapes,
      length shapes = length (unifiedTools sm)
      /\ registeredTools srv
         = flat_map (fun p => [tool_registration (fst p) (snd p); add_tool])
             (combine (unifiedTools sm) shapes))
  /\ registeredResources srv = map resource_registration (unifiedResources sm)
  /\ (exists shapes,
         length shapes = length (unifiedPrompts sm)
         /\ registeredPrompts srv
            = map (fun p => prompt_registration (fst p) (snd p))
                (combine (unifiedPrompts sm) shapes)).
Proof.
  unfold register_all, getUnifiedTools, getUnifiedResources, getUnifiedPrompts.
  destruct (register_tools (unifiedTools sm) new_server) as [srv1|e] eqn:E1;
    [|discriminate].
  intros E3.
  apply register_tools_spec in E1. destruct E1 as (Hr1 & Hp1 & shapes & Hlen & Ht1).
  destruct (register_resources_spec (unifiedResources sm) srv1) as (Ht2 & Hp2 & Hr2).
  apply register_prompts_spec in E3. destruct E3 as (Ht3 & Hr3 & pshapes & Hplen & Hp3).
  split; [|split].
  - exists shapes. split; [exact Hlen|]. now rewrite Ht3, Ht2, Ht1.
  - now rewrite Hr3, Hr2, Hr1.
  - exists pshapes. split; [exact Hplen|]. now rewrite Hp3, Hp2, Hp1.
Qed.


Lemma startup_inv spawn cfg sm srv :
  startup spawn cfg = Resolved (sm, srv) ->
  spawnServers spawn (loadConfig cfg new_manager) = Resolved sm
  /\ register_all sm = Resolved srv.
Proof.
  unfold startup.
  destruct (spawnServers spawn (loadConfig cfg new_manager)) as [sm'|e];
    [|discriminate].
  destruct (register_all sm') as [srv'|e] eqn:E; [|discriminate].
  intros H. injection H as <- <-. now split.
Qed.

(** ** The map of spawned servers *)

Section MapFacts.
Variable V : Type.

Lemma map_get_set_same k (v : V) m : map_get k (map_set k v m) = Some v.
Proof.
  induction m as [|[k' v'] m IH]; simpl.
  - now rewrite streq_refl.
  - destruct (streq k' k) eqn:E; simpl; now rewrite E.
Qed.

Lemma map_get_set_other k k' (v : V) m :
  k' <> k -> map_get k' (map_set k v m) = map_get k' m.
Proof.
  intros Hk. induction m as [|[k0 v0] m IH]; simpl.
  - destruct (streq k k') eqn:E; [|reflexivity].
    apply streq_true in E. congruence.
  - destruct (streq k0 k) eqn:E; simpl.
    + apply streq_true in E. subst k0.
      destruct (streq k k') eqn:E'; [|reflexivity].
      apply streq_true in E'. congruence.
    + now rewrite IH.
Qed.

Lemma map_get_delete_same k (m : list (jsstring * V)) :
  map_get k (map_delete k m) = None.
Proof.
  induction m as [|[k' v'] m IH]; simpl; [reflexivity|].
  destruct (streq k' k) eqn:E; simpl; [exact IH|]. now rewrite E.
Qed.

Lemma map_get_delete_other k k' (m : list (jsstring * V)) :
  k' <> k -> map_get k' (map_delete k m) = map_get k' m.
Proof.
  intros Hk. induction m as [|[k0 v0] m IH]; simpl; [reflexivity|].
  destruct (streq k0 k) eqn:E; simpl.
  - apply streq_true in E. subst k0.
    destruct (streq k k') eqn:E'; [|exact IH].
    apply streq_true in E'. congruence.
  - now rewrite IH.
Qed.

Lemma map_delete_incl k (m : list (jsstring * V)) e :
  In e (map_delete k m) -> In e m /\ fst e <> k.
Proof.
  induction m as [|[k0 v0] m IH]; simpl; [tauto|].
  destruct (streq k0 k) eqn:E.
  - intros H. destruct (IH H). split; [now right|assumption].
  - intros [<-|H].
    + split; [now left|]. simpl. now apply streq_false.
    + destruct (IH H). split; [now right|assumption].
Qed.

End MapFacts.

Section SpawnedMap.

Variable spawn : jsstring -> McpServerConfig -> outcome ChildProcess.

(** The process an entry of the configuration starts, connected or not. *)
Definition spawned (entry : jsstring * McpServerConfig) : option ChildProcess :=
  match disabled (snd entry) with
  | Some true => None
  | _ =>
      match spawn (fst entry) (snd entry) with
      | Resolved child => Some child
      | Rejected _ => None
      end
  end.

Definition server_entry (a : jsstring) (child : ChildProcess) : SpawnedServer :=
  {| process := child; client := {| client_name := a; peer := child |} |}.


Lemma spawnServer_servers sm entry :
  spawnedServers (spawnServer spawn sm entry)
  = match spawned entry with
    | Some child => map_set (fst entry) (server_entry (fst entry) child)
                      (spawnedServers sm)
    | None => spawnedServers sm
    end.
Proof.
  unfold spawnServer, spawned.
  destruct (disabled (snd entry)) as [[|]|]; try reflexivity;
    destruct (spawn (fst entry) (snd entry)) as [ch|]; try reflexivity;
    destruct (connect ch); reflexivity.
Qed.

Lemma spawn_loop_other entries sm a :
  ~ In a (map fst entries) ->
  map_get a (spawnedServers (fold_left (spawnServer spawn) entries sm))
  = map_get a (spawnedServers sm).
Proof.
  revert sm. induction entries as [|e es IH]; intros sm Hn; simpl; [reflexivity|].
  rewrite IH by (intros H; apply Hn; now right).
  rewrite spawnServer_servers. destruct (spawned e); [|reflexivity].
  apply map_get_set_other. intros ->. apply Hn. now left.
Qed.

Lemma spawn_loop_running entries sm a c child :
  NoDup (map fst entries) ->
  In (a, c) entries ->
  spawned (a, c) = Some child ->
  map_get a (spawnedServers (fold_left (spawnServer spawn) entries sm))
  = Some (server_entry a child).
Proof.
  revert sm. induction entries as [|e es IH]; intros sm Hnd Hin Hsp; simpl;
    [contradiction|].
  inversion Hnd as [|? ? Hnot Hnd']; subst.
  destruct Hin as [->|Hin].
  - rewrite spawn_loop_other by exact Hnot.
    rewrite spawnServer_servers, Hsp. simpl. apply map_get_set_same.
  - now apply IH.
Qed.

Lemma spawnServers_running cfg sm a c child :
  spawnServers spawn (loadConfig cfg new_manager) = Resolved sm ->
  NoDup (map fst (mcpServers cfg)) ->
  In (a, c) (mcpServers cfg) ->
  spawned (a, c) = Some child ->
  getSpawnedServer sm a = Some (server_entry a child).
Proof.
  unfold spawnServers, getSpawnedServer. simpl. intros H. injection H as <-.
  simpl. apply spawn_loop_running.
Qed.

End SpawnedMap.

(** ** Claims about namespacing and dispatch *)


(** A child with one prompt, which answers every call with a greeting. *)
Definition greeting : json :=
  JObj [(lit "content",
         JArr [JObj [(lit "type", JStr (lit "text"));
                     (lit "text", JStr (lit "hello"))]])].

Definition greeter_child : ChildProcess :=
  child_with (Resolved (Items [tool_named "wave"]))
             (Resolved (Items [resource_at "notes://today"]))
             (Resolved (Items [prompt_named "greet"]))
             (Resolved greeting).

Definition greeter_config : McpRouterConfig :=
  {| mcpServers := [(lit "greeter", stdio "greeter-server")] |}.

Definition greeter_spawn (serverName : jsstring) (c : McpServerConfig)
  : outcome ChildProcess := Resolved greeter_child.

(** The router running on [greeter_config]. *)
Definition greeter_router : Router :=
  match startup greeter_spawn greeter_config with
  | Resolved p => {| manager := fst p; server := snd p |}
  | Rejected _ => {| manager := new_manager; server := new_server |}
  end.




(** C7 at the failing inputs: when the forwarded call is rejected, the
    tool handler does not throw, but what it returns is the bare string
    ["Error: " + message], not an object: it has no [isError] and no
    [content] member. *)
Theorem failed_call_returns_bare_string :
  forall (sm : ServerManager) (toolMetadata : UnifiedToolMetadata) (args : json)
         (serverEntry : SpawnedServer) (error : JsError),
    getSpawnedServer sm (ut_serverName toolMetadata) = Some serverEntry ->
    callTool (peer (client serverEntry))
      {| call_name := originalToolName toolMetadata; call_arguments := args |}
      = Rejected error ->
    exists result,
      proxyHandler sm toolMetadata args = Resolved result
      /\ result = JStr (lit "Error: " ++ message_or error (lit "Unknown error"))
      /\ lookup result [Key (lit "isError")] = None
      /\ lookup result [Key (lit "content")] = None
      /\ (forall members, result <> JObj members).
Proof.
  intros sm tm args entry error Hget Hcall.
  eexists. unfold proxyHandler. rewrite Hget, Hcall.
  split; [reflexivity|]. split; [reflexivity|].
  split; [reflexivity|]. split; [reflexivity|]. discriminate.
Qed.

(** A child whose tool calls fail. *)
Definition db_child : ChildProcess :=
  child_with (Resolved (Items [tool_named "query"]))
             (Resolved (Items [])) (Resolved (Items []))
             (Rejected (mkError (lit "connection lost"))).

Definition db_config : McpRouterConfig :=
  {| mcpServers := [(lit "db", stdio "db-server")] |}.

Definition db_spawn (serverName : jsstring) (c : McpServerConfig)
  : outcome ChildProcess := Resolved db_child.

(** The manager once [spawnServers] has run on [db_config]. *)
Definition db_manager : ServerManager :=
  say [Log (lit "All configured servers processed.")]
    (fold_left (spawnServer db_spawn) (mcpServers db_config)
       (loadConfig db_config new_manager)).

Lemma failed_call_returns_bare_string_witness :
  exists result,
    proxyHandler db_manager (mkTool (lit "db") (tool_named "query")) (JObj [])
      = Resolved result
    /\ result = JStr (lit "Error: connection lost")
    /\ lookup result [Key (lit "isError")] = None
    /\ lookup result [Key (lit "content")] = None
    /\ (forall members, result <> JObj members).
Proof.
  apply (failed_call_returns_bare_string db_manager
           (mkTool (lit "db") (tool_named "query")) (JObj [])
           (server_entry (lit "db") db_child) (mkError (lit "connection lost"))).
  - vm_compute. reflexivity.
  - reflexivity.
Defined.

(** ** Claims about a closing child *)

Lemma on_close_effect a sm :
  getSpawnedServer (on_close a sm) a = None
  /\ unifiedTools (on_close a sm) = []
  /\ unifiedResources (on_close a sm) = []
  /\ unifiedPrompts (on_close a sm) = [].
Proof.
  unfold on_close, getSpawnedServer. simpl. repeat split.
  apply map_get_delete_same.
Qed.

(** The client a pending call was issued on. *)
Definition pending_client (p : Pending) : Client :=
  match p with
  | PendingTools c | PendingResources c | PendingPrompts c => c
  end.

Lemma on_close_pending a sm p :
  In p (pending (on_close a sm)) ->
  In p (pending sm)
  \/ exists e, In e (spawnedServers (on_close a sm))
               /\ fst e <> a
               /\ pending_client p = client (snd e).
Proof.
  unfold on_close. simpl. intros H. apply in_app_or in H.
  destruct H as [H|H]; [now left|]. right.
  apply in_flat_map in H. destruct H as (e & He & Hp).
  exists e. destruct (map_delete_incl _ _ _ _ He) as [_ Hne].
  split; [exact He|]. split; [exact Hne|].
  simpl in Hp. destruct Hp as [<-|[<-|[<-|[]]]]; reflexivity.
Qed.

Lemma on_settle_tools i sm tm :
  In tm (unifiedTools (on_settle i sm)) ->
  In tm (unifiedTools sm)
  \/ exists c, In (PendingTools c) (pending sm)
               /\ ut_serverName tm = client_name c.
Proof.
  unfold on_settle.
  destruct (nth_error (pending sm) i) as [p|] eqn:E; [|now left].
  apply nth_error_In in E.
  destruct p as [c|c|c]; simpl.
  - unfold settleTools.
    destruct (listTools (peer c)) as [[l|raw]|e]; simpl;
      rewrite ?app_nil_r; try (now left).
    intros H. apply in_app_or in H. destruct H as [H|H]; [now left|].
    right. exists c. split; [exact E|].
    apply in_map_iff in H. now destruct H as (t & <- & _).
  - unfold settleResources.
    destruct (listResources (peer c)) as [[l|raw]|e]; simpl; now left.
  - unfold settlePrompts.
    destruct (listPrompts (peer c)) as [[l|raw]|e]; simpl; now left.
Qed.

(** C2 (as the code has it): the ['close'] handler of child [a] takes [a]
    out of the map and empties the three collections of the manager
    before it returns; the list calls it issues go to the servers still in
    the map, and a tool entry that appears later was pushed by such a call
    and carries the name of its client. The outward server is not touched
    by either event: [tools/list] shows what was registered at startup,
    and the handler of a tool of [a] now throws
    "Server 'a' not found or not running.". *)
Theorem close_clears_manager_only :
  forall (r : Router) (a : jsstring),
    let r' := router_handle r (Close a) in
    getSpawnedServer (manager r') a = None
    /\ unifiedTools (manager r') = []
    /\ unifiedResources (manager r') = []
    /\ unifiedPrompts (manager r') = []
    /\ (forall p, In p (pending (manager r')) ->
          In p (pending (manager r))
          \/ exists e, In e (spawnedServers (manager r'))
                       /\ fst e <> a
                       /\ pending_client p = client (snd e))
    /\ tools_list (server r') = tools_list (server r)
    /\ (forall i, tools_list (server (router_handle r' (Settle i)))
                  = tools_list (server r))
    /\ (forall i tm,
          In tm (unifiedTools (manager (router_handle r' (Settle i)))) ->
          exists c, In (PendingTools c) (pending (manager r'))
                    /\ ut_serverName tm = client_name c)
    /\ (forall toolMetadata args,
          ut_serverName toolMetadata = a ->
          proxyHandler (manager r') toolMetadata args = Rejected (not_running a)).
Proof.
  intros r a r'. subst r'. simpl.
  destruct (on_close_effect a (manager r)) as (Hget & Ht & Hr & Hp).
  split; [exact Hget|]. split; [exact Ht|]. split; [exact Hr|].
  split; [exact Hp|]. split; [apply on_close_pending|].
  split; [reflexivity|]. split; [reflexivity|]. split.
  - intros i tm H. apply on_settle_tools in H. rewrite Ht in H.
    destruct H as [[]|H]. exact H.
  - intros tm args Hname. unfold proxyHandler. now rewrite Hname, Hget.
Qed.

(** The router running on [db_config]. *)
Definition db_router : Router :=
  {| manager := db_manager;
     server := match register_all db_manager with
               | Resolved srv => srv
               | Rejected _ => new_server
               end |}.

(** C2 as stated fails: [startup] gives exactly [db_router]; once [db] has
    closed it is out of the map, and [tools/list] still shows its tool. *)
Lemma closed_child_stays_listed :
  startup db_spawn db_config = Resolved (manager db_router, server db_router)
  /\ getSpawnedServer (manager (router_handle db_router (Close (lit "db"))))
       (lit "db") = None
  /\ In (lit "db_query")
       (tools_list (server (router_handle db_router (Close (lit "db"))))).
Proof.
  split; [vm_compute; reflexivity|].
  split; [vm_compute; reflexivity|]. vm_compute. tauto.
Qed.

(** ** Claims about what the outward server exposes *)

Definition stats_uri : jsstring := lit "stats://mcp-router-server".

(** Every resource the router registers is a resource of a child, under
    its namespaced name. *)
Lemma registered_resources_are_proxied spawn cfg sm srv r :
  startup spawn cfg = Resolved (sm, srv) ->
  In r (registeredResources srv) ->
  exists entry child resource,
    In entry (mcpServers cfg)
    /\ started spawn entry = Some child
    /\ In resource (listed (listResources child))
    /\ rr_name r = unified (fst entry) (resource_uri resource)
    /\ rr_uri r = resource_uri resource.
Proof.
  intros Hstart Hin. apply startup_inv in Hstart. destruct Hstart as [Hspawn Hreg].
  destruct (spawnServers_collects _ _ _ Hspawn) as (_ & Hr & _ & _).
  destruct (register_all_spec _ _ Hreg) as (_ & Hrr & _).
  rewrite Hrr, Hr in Hin. apply in_map_iff in Hin. destruct Hin as (rm & <- & Hrm).
  apply in_flat_map in Hrm. destruct Hrm as (entry & He & Hrm).
  unfold discovered_resources in Hrm.
  destruct (started spawn entry) as [child|] eqn:E; [|contradiction].
  apply in_map_iff in Hrm. destruct Hrm as (resource & <- & Hres).
  exists entry, child, resource. repeat split; assumption.
Qed.

(** C9 at a failing input: with no server configured the router starts
    and exposes no resource at all, so the statistics resource the README
    announces is not there; for any configuration, a registered resource
    never carries the statistics URI as its name. *)
Theorem stats_resource_is_missing :
  forall (spawn : jsstring -> McpServerConfig -> outcome ChildProcess),
    (exists sm srv,
        startup spawn {| mcpServers := [] |} = Resolved (sm, srv)
        /\ resources_list srv = []
        /\ ~ In stats_uri (map fst (resources_list srv))
        /\ ~ In stats_uri (map snd (resources_list srv)))
    /\ (forall cfg sm srv r,
          startup spawn cfg = Resolved (sm, srv) ->
          In r (registeredResources srv) ->
          rr_name r <> stats_uri).
Proof.
  intros spawn. split.
  - eexists. eexists. split; [reflexivity|]. simpl. auto.
  - intros cfg sm srv r Hstart Hin Hname.
    destruct (registered_resources_are_proxied _ _ _ _ _ Hstart Hin)
      as (entry & child & resource & _ & _ & _ & Hn & _).
    rewrite Hn in Hname.
    assert (Hu : In UNDERSCORE (unified (fst entry) (resource_uri resource))).
    { unfold unified. apply in_or_app. right. now left. }
    rewrite Hname in Hu. vm_compute in Hu. intuition discriminate.
Qed.















Section SdkFacts.

Variable Server : Type.
Variable register : Registration -> Server -> outcome Server.













(** What an SDK owes for the tools it lists: a tool whose registration
    returned is listed, and a call that returns drops no name. *)
Variable tools_of : Server -> list jsstring.

Hypothesis registered_is_listed :
  forall r s s',
    register r s = Resolved s' ->
    incl (tools_of s) (tools_of s')
    /\ forall t, r = ToolRegistration t -> In (rt_name t) (tools_of s').


End SdkFacts.

(** *** Reading the text of a number *)









(** Beyond that range the sum is rounded, and from [10^21] on the text is
    in exponent form. *)
Lemma addHandler_rounds :
  addHandler 9007199254740992 1
  = JObj [(lit "content",
           JArr [JObj [(lit "type", JStr (lit "text"));
                       (lit "text", JStr (lit "9007199254740992"))]])]
  /\ addHandler (10 ^ 21) 0
     = JObj [(lit "content",
              JArr [JObj [(lit "type", JStr (lit "text"));
                          (lit "text", JStr (lit "1e+21"))]])]
  /\ addHandler (2 ^ 64) 0
     = JObj [(lit "content",
              JArr [JObj [(lit "type", JStr (lit "text"));
                          (lit "text", JStr (lit "18446744073709552000"))]])].
Proof. repeat split; vm_compute; reflexivity. Qed.

(** The second instance meets what is asked of an SDK. *)
Lemma refuse_twice_lists r s s' :
  refuse_twice r s = Resolved s' ->
  incl (tools_list s) (tools_list s')
  /\ forall t, r = ToolRegistration t -> In (rt_name t) (tools_list s').
Proof.
  unfold refuse_twice, keep_all, tools_list.
  destruct r as [t|t|t];
    match goal with |- context [if ?b then _ else _] => destruct b end;
    try discriminate; intros [= <-]; simpl.
  - split.
    + rewrite map_app. now apply incl_appl, incl_refl.
    + intros t' [= <-]. rewrite map_app. apply in_or_app. right. now left.
  - split; [apply incl_refl|discriminate].
  - split; [apply incl_refl|discriminate].
Qed.


(** The router running on [twin_config]. *)
Definition twin_router : Router :=
  match startup twin_spawn twin_config with
  | Resolved p => {| manager := fst p; server := snd p |}
  | Rejected _ => {| manager := new_manager; server := new_server |}
  end.


(* ===================================================================== *)
(** * Further properties of the code                                       *)
(* ===================================================================== *)

(** ** The data handler on arbitrary input *)

(** X1: how the bytes are cut into chunks does not matter. Two sequences
    of chunks whose decoded texts put end to end are the same text raise
    the same events and leave the same transport, whatever the text is
    (well-formed, malformed or blank lines, or an unfinished one). *)
Theorem chunking_is_irrelevant :
  forall (JSON_parse : jsstring -> option json) (toString : list N -> jsstring)
         (t : CustomStdioClientTransport) (chunks chunks' : list (list N)),
    indexOf LF (_buffer t) = None ->
    concat (map toString chunks) = concat (map toString chunks') ->
    feed JSON_parse toString t chunks = feed JSON_parse toString t chunks'.
Proof.
  intros P toS t chunks chunks' Hbuf Hcat.
  apply indexOf_None_absent in Hbuf.
  destruct (feed_concat P toS t chunks Hbuf) as [H1 H2].
  destruct (feed_concat P toS t chunks' Hbuf) as [H1' H2'].
  rewrite (surjective_pairing (feed P toS t chunks)).
  rewrite (surjective_pairing (feed P toS t chunks')).
  now rewrite H1, H2, H1', H2', Hcat.
Qed.

Lemma chunking_is_irrelevant_witness :
  feed Reference.JSON_parse Reference.toString connected sample_chunks
  = feed Reference.JSON_parse Reference.toString connected [unlines sample_texts].
Proof.
  apply (chunking_is_irrelevant Reference.JSON_parse Reference.toString connected
           sample_chunks [unlines sample_texts]).
  - reflexivity.
  - vm_compute. reflexivity.
Defined.

(** A line that is not blank raises one event when both callbacks are
    installed; a blank one raises none. *)
Definition blank (line : jsstring) : bool :=
  match trim line with
  | [] => true
  | _ => false
  end.

Lemma line_events_count JSON_parse t line :
  _onmessageCallback t = true -> _onerrorCallback t = true ->
  length (line_events JSON_parse t line) = if blank line then 0 else 1.
Proof.
  intros Hm He. unfold line_events, blank, process_line.
  destruct (trim line) as [|c r]; [reflexivity|].
  rewrite Hm, He. now destruct (JSON_parse (c :: r)).
Qed.

(** X2: what a run of ['data'] events amounts to. Cut the text (buffer
    and decoded chunks) at its line feeds: the events are those of the
    closed lines, in order, one for each line that is not blank when both
    callbacks are installed; the open end behind the last line feed is
    what stays in the buffer, and it holds no line feed. *)
Theorem feed_handles_closed_lines :
  forall (JSON_parse : jsstring -> option json) (toString : list N -> jsstring)
         (t : CustomStdioClientTransport) (chunks : list (list N)),
    indexOf LF (_buffer t) = None ->
    let text := _buffer t ++ concat (map toString chunks) in
    let lines := fst (closed_lines text) in
    let open_end := snd (closed_lines text) in
    text = unlines lines ++ open_end
    /\ Forall (fun l => indexOf LF l = None) lines
    /\ indexOf LF open_end = None
    /\ fst (feed JSON_parse toString t chunks)
       = flat_map (line_events JSON_parse t) lines
    /\ _buffer (snd (feed JSON_parse toString t chunks)) = open_end
    /\ (_onmessageCallback t = true -> _onerrorCallback t = true ->
        length (fst (feed JSON_parse toString t chunks))
        = length (filter (fun l => negb (blank l)) lines)).
Proof.
  intros P toS t chunks Hbuf text lines open_end.
  apply indexOf_None_absent in Hbuf.
  destruct (feed_concat P toS t chunks Hbuf) as [H1 H2].
  destruct (closed_lines_spec text) as (Hd & Hl & Ho).
  fold text in H1, H2. rewrite process_buffer_closed_lines in H1, H2.
  simpl in H1, H2. fold lines in H1. fold open_end in H2.
  split; [exact Hd|]. split.
  { eapply Forall_impl; [|exact Hl]. intros l. apply indexOf_absent. }
  split; [now apply indexOf_absent|].
  split; [exact H1|]. split; [now rewrite H2|].
  intros Hm He. rewrite H1. clear - Hm He.
  induction lines as [|l ls IH]; [reflexivity|].
  simpl. rewrite length_app, IH, (line_events_count P t l Hm He).
  now destruct (blank l).
Qed.

Lemma feed_handles_closed_lines_witness :
  let text := _buffer connected ++ concat (map Reference.toString noisy_chunks) in
  let lines := fst (closed_lines text) in
  let open_end := snd (closed_lines text) in
  text = unlines lines ++ open_end
  /\ Forall (fun l => indexOf LF l = None) lines
  /\ indexOf LF open_end = None
  /\ fst (feed Reference.JSON_parse Reference.toString connected noisy_chunks)
     = flat_map (line_events Reference.JSON_parse connected) lines
  /\ _buffer (snd (feed Reference.JSON_parse Reference.toString connected
                     noisy_chunks)) = open_end
  /\ (_onmessageCallback connected = true -> _onerrorCallback connected = true ->
      length (fst (feed Reference.JSON_parse Reference.toString connected
                     noisy_chunks))
      = length (filter (fun l => negb (blank l)) lines)).
Proof.
  apply (feed_handles_closed_lines Reference.JSON_parse Reference.toString
           connected noisy_chunks).
  reflexivity.
Defined.

(** X3: a message that arrives while no message callback is installed is
    lost, not kept: nothing is delivered, and the buffer ends as it would
    have with the callback in place. *)
Theorem messages_without_callback_are_lost :
  forall (JSON_parse : jsstring -> option json) (toString : list N -> jsstring)
         (t : CustomStdioClientTransport) (chunks : list (list N)),
    indexOf LF (_buffer t) = None ->
    _onmessageCallback t = false ->
    delivered (fst (feed JSON_parse toString t chunks)) = []
    /\ _buffer (snd (feed JSON_parse toString t chunks))
       = _buffer (snd (feed JSON_parse toString (set_onmessage t) chunks)).
Proof.
  intros P toS t chunks Hbuf Hcb.
  apply indexOf_None_absent in Hbuf.
  destruct (feed_concat P toS t chunks Hbuf) as [H1 H2].
  destruct (feed_concat P toS (set_onmessage t) chunks Hbuf) as [_ H2'].
  rewrite H1, H2, H2'. simpl.
  rewrite !process_buffer_closed_lines. simpl. split; [|reflexivity].
  induction (fst (closed_lines (_buffer t ++ concat (map toS chunks))))
    as [|l ls IH]; [reflexivity|].
  simpl.
  assert (Hd : forall a b, delivered (a ++ b) = delivered a ++ delivered b).
  { clear. induction a as [|[m|e] a IHa]; intros b; simpl; try rewrite IHa;
      reflexivity. }
  rewrite Hd, IH, app_nil_r.
  unfold line_events, process_line. rewrite Hcb.
  destruct (trim l) as [|c r]; [reflexivity|].
  destruct (P (c :: r)); [reflexivity|]. now destruct (_onerrorCallback t).
Qed.

Lemma messages_without_callback_are_lost_witness :
  delivered (fst (feed Reference.JSON_parse Reference.toString new_transport
                    sample_chunks)) = []
  /\ _buffer (snd (feed Reference.JSON_parse Reference.toString new_transport
                     sample_chunks))
     = _buffer (snd (feed Reference.JSON_parse Reference.toString
                       (set_onmessage new_transport) sample_chunks)).
Proof.
  apply (messages_without_callback_are_lost Reference.JSON_parse
           Reference.toString new_transport sample_chunks); reflexivity.
Defined.

(** ** The outbound side *)

Section SendFacts.

Variable JSON_stringify : json -> jsstring.
Variable write_returns : Writable -> jsstring -> bool.

Lemma send_all_writes s messages :
  writable (_output s) = true ->
  written (_output (snd (send_all JSON_stringify write_returns s messages)))
    = written (_output s) ++ unlines (map JSON_stringify messages)
  /\ writable (_output (snd (send_all JSON_stringify write_returns s messages)))
     = true
  /\ Forall (fun r => r = SendResolved \/ r = SendResolvedOnDrain)
       (fst (send_all JSON_stringify write_returns s messages)).
Proof.
  revert s. induction messages as [|m ms IH]; intros s Hw; simpl.
  - rewrite app_nil_r. repeat split; auto.
  - set (s1 := {| _input_destroyed := _input_destroyed s;
                  _output := {| writable := writable (_output s);
                                written := written (_output s)
                                           ++ JSON_stringify m ++ [LF] |} |}).
    assert (Hsend : send JSON_stringify write_returns s m
                    = (if negb (write_returns (_output s) (JSON_stringify m ++ [LF]))
                       then SendResolvedOnDrain else SendResolved, s1)).
    { unfold send. rewrite Hw. reflexivity. }
    rewrite Hsend. simpl.
    destruct (IH s1 Hw) as (H1 & H2 & H3).
    rewrite H1, H2. simpl. unfold unlines. simpl.
    rewrite <- !app_assoc. split; [reflexivity|]. split; [reflexivity|].
    constructor; [|exact H3].
    destruct (write_returns (_output s) (JSON_stringify m ++ [LF])); auto.
Qed.

End SendFacts.

(** X4: once [close] has run, [send] rejects with the "not writable"
    error and writes nothing, for every message and however often it is
    called. *)
Theorem send_after_close_writes_nothing :
  forall (JSON_stringify : json -> jsstring)
         (write_returns : Writable -> jsstring -> bool)
         (s : Streams) (messages : list json),
    let r := send_all JSON_stringify write_returns (close s) messages in
    Forall (fun result => result = SendRejected not_writable) (fst r)
    /\ length (fst r) = length messages
    /\ written (_output (snd r)) = written (_output s)
    /\ snd r = close s.
Proof.
  intros str wr s messages. simpl.
  induction messages as [|m ms (IH1 & IH2 & IH3 & IH4)]; simpl.
  - repeat split; constructor.
  - split; [constructor; [reflexivity|exact IH1]|].
    split; [now rewrite IH2|]. split; [exact IH3|exact IH4].
Qed.

(** X5: [send] and the data handler agree on the framing. On a writable
    stream a sequence of [send] calls settles without rejection and writes
    the messages in order, each as its [JSON.stringify] text and one line
    feed; a transport that receives what was written, in whatever chunks,
    hands the same messages to its callback in the same order (after the
    [structuredContent] correction), provided [JSON.stringify] gives
    one-line texts that [JSON.parse] reads back. *)
Theorem sent_messages_are_received :
  forall (JSON_stringify : json -> jsstring)
         (write_returns : Writable -> jsstring -> bool)
         (JSON_parse : jsstring -> option json) (toString : list N -> jsstring)
         (s : Streams) (t : CustomStdioClientTransport)
         (messages : list json) (chunks : list (list N)),
    writable (_output s) = true ->
    written (_output s) = [] ->
    Forall (fun m => one_line_json JSON_parse m (JSON_stringify m)) messages ->
    _onmessageCallback t = true ->
    _buffer t = [] ->
    let sent := send_all JSON_stringify write_returns s messages in
    concat (map toString chunks) = written (_output (snd sent)) ->
    Forall (fun r => r = SendResolved \/ r = SendResolvedOnDrain) (fst sent)
    /\ written (_output (snd sent)) = unlines (map JSON_stringify messages)
    /\ fst (feed JSON_parse toString t chunks)
       = map (fun m => OnMessage (correct m)) messages
    /\ _buffer (snd (feed JSON_parse toString t chunks)) = [].
Proof.
  intros str wr P toS s t messages chunks Hw Hempty Hall Hcb Hbuf sent Hcat.
  destruct (send_all_writes str wr s messages Hw) as (Hwritten & _ & Hres).
  fold sent in Hwritten, Hres. rewrite Hempty in Hwritten. simpl in Hwritten.
  split; [exact Hres|]. split; [exact Hwritten|].
  destruct (feed_concat P toS t chunks) as [H1 H2].
  { rewrite Hbuf. intros []. }
  rewrite H1, H2, Hbuf, Hcat, Hwritten. simpl.
  rewrite <- (app_nil_r (unlines (map str messages))).
  rewrite process_buffer_lines.
  - rewrite process_buffer_empty. simpl. rewrite app_nil_r.
    split; [|reflexivity].
    clear - Hall Hcb. induction Hall as [|m ms Hone _ IH]; [reflexivity|].
    simpl. rewrite (line_events_message _ t _ _ Hone), Hcb, IH. reflexivity.
  - clear - Hall. induction Hall as [|m ms Hone _ IH]; constructor; auto.
    apply indexOf_None_absent, Hone.
Qed.

Definition open_streams : Streams :=
  {| _input_destroyed := false;
     _output := {| writable := true; written := [] |} |}.

Lemma sent_messages_are_received_witness :
  let sent := send_all Reference.JSON_stringify (fun _ _ => false) open_streams
                sample_messages in
  Forall (fun r => r = SendResolved \/ r = SendResolvedOnDrain) (fst sent)
  /\ written (_output (snd sent)) = unlines (map Reference.JSON_stringify sample_messages)
  /\ fst (feed Reference.JSON_parse Reference.toString connected sample_chunks)
     = map (fun m => OnMessage (correct m)) sample_messages
  /\ _buffer (snd (feed Reference.JSON_parse Reference.toString connected
                     sample_chunks)) = [].
Proof.
  apply (sent_messages_are_received Reference.JSON_stringify (fun _ _ => false)
           Reference.JSON_parse Reference.toString open_streams connected
           sample_messages sample_chunks).
  - reflexivity.
  - reflexivity.
  - repeat constructor; vm_compute; (reflexivity || discriminate).
  - reflexivity.
  - reflexivity.
  - vm_compute. reflexivity.
Defined.

(** ** [convertJsonSchemaToZod] *)

Definition json_null_dec (v : json) : {v = JNull} + {v <> JNull}.
Proof. destruct v; (now left) || (right; discriminate). Defined.

(** The zod type [zod_of_prop] gives to a property that is not [null]. *)
Definition zod_type (prop : json) : ZodType :=
  match zod_of_prop prop with
  | Resolved z => z
  | Rejected _ => ZAny
  end.

Lemma zod_of_prop_not_null prop :
  prop <> JNull -> zod_of_prop prop = Resolved (zod_type prop).
Proof.
  intros Hn. unfold zod_type.
  destruct (zod_of_prop prop) as [z|e] eqn:E; [reflexivity|].
  exfalso. unfold zod_of_prop in E.
  destruct prop; try congruence;
    repeat match type of E with
           | context [match ?x with _ => _ end] => destruct x
           | context [if ?b then _ else _] => destruct b
           end; discriminate.
Qed.

Lemma zod_of_prop_null : exists e, zod_of_prop JNull = Rejected e.
Proof. eexists. reflexivity. Qed.

Lemma own_set_fresh k z (shape : ZodRawShape) :
  ~ In k (map fst shape) -> own_set k z shape = shape ++ [(k, z)].
Proof.
  induction shape as [|[k' z'] shape IH]; simpl; intros Hn; [reflexivity|].
  destruct (streq k' k) eqn:E.
  - apply streq_true in E. exfalso. apply Hn. now left.
  - rewrite IH; [reflexivity|]. intros H. apply Hn. now right.
Qed.

(** The properties whose assignment makes a member of the shape: all but
    [__proto__]. *)
Definition makes_member (kp : jsstring * json) : bool :=
  negb (streq (fst kp) (lit "__proto__")).

Lemma convert_properties_spec props shape :
  NoDup (map fst shape ++ map fst props) ->
  (In JNull (map snd props) ->
   exists e, convert_properties props shape = Rejected e)
  /\ (~ In JNull (map snd props) ->
      convert_properties props shape
      = Resolved (shape ++ map (fun kp => (fst kp, zod_type (snd kp)))
                             (filter makes_member props))).
Proof.
  revert shape. induction props as [|[k p] props IH]; intros shape Hnd; simpl.
  - split; [intros []|]. intros _. now rewrite app_nil_r.
  - assert (Hfresh : ~ In k (map fst shape)).
    { intros Hin. apply NoDup_remove_2 in Hnd. apply Hnd.
      apply in_or_app. now left. }
    assert (Hnd0 : NoDup (map fst shape ++ map fst props))
      by now apply NoDup_remove_1 in Hnd.
    assert (Hnd' : NoDup (map fst (shape ++ [(k, zod_type p)]) ++ map fst props)).
    { rewrite map_app. simpl. now rewrite <- app_assoc. }
    destruct (json_null_dec p) as [->|Hp].
    + split; [|intros H; exfalso; apply H; now left].
      intros _. eexists. reflexivity.
    + rewrite (zod_of_prop_not_null p Hp). unfold shape_set, makes_member.
      cbn [fst]. destruct (streq k (lit "__proto__")); cbn [negb].
      * destruct (IH _ Hnd0) as [IHbad IHgood]. split.
        -- intros [H|H]; [congruence|]. now apply IHbad.
        -- intros H. apply IHgood. intros H'. apply H. now right.
      * rewrite (own_set_fresh k _ shape Hfresh).
        destruct (IH _ Hnd') as [IHbad IHgood]. split.
        -- intros [H|H]; [congruence|]. now apply IHbad.
        -- intros H. rewrite IHgood by (intros H'; apply H; now right).
           cbn [map fst snd]. now rewrite <- app_assoc.
Qed.

(** X6: on an object schema ([type] is ["object"], [properties] is an
    object with distinct member names) the conversion throws exactly when
    some property is [null]; otherwise it returns a shape with the names
    of the properties in their order, the type of each name being the one
    its own property gets. The name [__proto__] is the exception: its
    property is read like the others (and throws if it is [null]), but the
    assignment makes no member, so the shape does not have that name. *)
Theorem convertJsonSchemaToZod_object_schema :
  forall (members props : list (jsstring * json)),
    assoc (lit "type") members = Some (JStr (lit "object")) ->
    assoc (lit "properties") members = Some (JObj props) ->
    NoDup (map fst props) ->
    (In JNull (map snd props) ->
     exists e, convertJsonSchemaToZod (JObj members) = Rejected e)
    /\ (~ In JNull (map snd props) ->
        (exists shape,
            convertJsonSchemaToZod (JObj members) = Resolved (Some shape)
            /\ shape = map (fun kp => (fst kp, zod_type (snd kp)))
                         (filter makes_member props)
            /\ (forall k, In k (map fst shape)
                          <-> In k (map fst props) /\ k <> lit "__proto__"))
        /\ forall k p, In (k, p) props -> zod_of_prop p = Resolved (zod_type p)).
Proof.
  intros members props Hty Hprops Hnd.
  destruct (convert_properties_spec props [] Hnd) as [Hbad Hgood].
  unfold convertJsonSchemaToZod. simpl. rewrite Hty, Hprops. simpl. split.
  - intros H. destruct (Hbad H) as [e He]. rewrite He. eauto.
  - intros H. rewrite (Hgood H). simpl. split.
    + eexists. split; [reflexivity|]. split; [reflexivity|].
      intros k. rewrite map_map. cbn [fst]. rewrite !in_map_iff. split.
      * intros ([k' p] & <- & Hin). apply filter_In in Hin.
        destruct Hin as [Hin Hm]. split; [exists (k', p); now split|].
        unfold makes_member in Hm. cbn [fst] in *.
        apply streq_false. now destruct (streq k' (lit "__proto__")).
      * intros (([k' p] & <- & Hin) & Hne). exists (k', p).
        split; [reflexivity|]. apply filter_In. split; [exact Hin|].
        unfold makes_member. cbn [fst] in *.
        apply streq_false in Hne. now rewrite Hne.
    + intros k p Hin. apply zod_of_prop_not_null. intros ->.
      apply H. apply in_map_iff. exists (k, JNull). now split.
Qed.

(** The input schema of a forecast tool, with a property named
    [__proto__] among the others. *)
Definition forecast_properties : list (jsstring * json) :=
  [(lit "city", JObj [(lit "type", JStr (lit "string"))]);
   (lit "__proto__", JObj [(lit "type", JStr (lit "boolean"))]);
   (lit "days", JObj [(lit "type", JStr (lit "integer"))]);
   (lit "units", JObj [(lit "enum", JArr [])])].

Definition forecast_schema : list (jsstring * json) :=
  [(lit "type", JStr (lit "object")); (lit "properties", JObj forecast_properties)].

Lemma convertJsonSchemaToZod_object_schema_witness :
  convertJsonSchemaToZod (JObj forecast_schema)
  = Resolved (Some [(lit "city", ZString); (lit "days", ZNumber); (lit "units", ZAny)]).
Proof.
  destruct (convertJsonSchemaToZod_object_schema forecast_schema forecast_properties)
    as [_ Hgood].
  - reflexivity.
  - reflexivity.
  - repeat constructor; vm_compute; intuition discriminate.
  - destruct Hgood as [(shape & H & -> & _) _].
    + vm_compute. intuition discriminate.
    + rewrite H. vm_compute. reflexivity.
Defined.

(** X7: the conversion returns [undefined] exactly for the values that
    are not an object schema: those whose [type] member is not the string
    ["object"] or whose [properties] member is missing or falsy. The tests
    on the value itself and on its [typeof] add nothing to that. *)
Theorem convertJsonSchemaToZod_undefined :
  forall (jsonSchema : json),
    convertJsonSchemaToZod jsonSchema = Resolved None
    <-> ~ (lookup jsonSchema [Key (lit "type")] = Some (JStr (lit "object"))
           /\ truthy_opt (lookup jsonSchema [Key (lit "properties")]) = true).
Proof.
  intros schema. rewrite !lookup_key. unfold convertJsonSchemaToZod.
  destruct schema as [| | | | |members]; simpl;
    try (split; [intros _ [H _]; discriminate | reflexivity]).
  - destruct b; simpl; split; try reflexivity; intros _ [H _]; discriminate.
  - destruct (negb (z =? 0)%Z); simpl; split; try reflexivity;
      intros _ [H _]; discriminate.
  - destruct s; simpl; split; try reflexivity; intros _ [H _]; discriminate.
  - destruct (assoc (lit "type") members) as [[| | |ty| |]|] eqn:Et; simpl;
      try (split; [intros _ [H _]; discriminate | reflexivity]).
    destruct (streq ty (lit "object")) eqn:Es; simpl.
    + apply streq_true in Es. subst ty.
      destruct (assoc (lit "properties") members) as [properties|] eqn:Ep; simpl;
        [|split; [intros _ [_ H]; discriminate | reflexivity]].
      destruct (truthy properties) eqn:Etr; simpl.
      * split.
        -- destruct (convert_properties (enumerate properties) []); discriminate.
        -- intros H. exfalso. apply H. now split.
      * split; [intros _ [_ H]; discriminate | reflexivity].
    + split; [|reflexivity]. intros _ [H _]. injection H as H.
      apply streq_false in Es. congruence.
Qed.

(** ** The registration loops *)

(** A schema the conversion accepts, and the shape it gets. *)
Definition convertible (schema : option json) : Prop :=
  exists shape, convert_optional schema = Resolved shape.

Definition converted (schema : option json) : option ZodRawShape :=
  match convert_optional schema with
  | Resolved shape => shape
  | Rejected _ => None
  end.

(** The calls of the three loops when none of them is cut short. *)
Definition planned_calls (sm : ServerManager) : list Registration :=
  flat_map (fun tm =>
              [ToolRegistration (tool_registration tm (converted (ut_inputSchema tm)));
               ToolRegistration add_tool])
    (getUnifiedTools sm)
  ++ map (fun rm => ResourceRegistration (resource_registration rm))
       (getUnifiedResources sm)
  ++ map (fun pm =>
            PromptRegistration (prompt_registration pm (converted (up_argsSchema pm))))
       (getUnifiedPrompts sm).

Section Completion.

Variable Server : Type.
Variable register : Registration -> Server -> outcome Server.

Lemma register_tools_on_done tools srv srv' :
  snd (register_tools_on register tools srv) = Resolved srv' ->
  fst (register_tools_on register tools srv)
  = flat_map (fun tm =>
                [ToolRegistration (tool_registration tm (converted (ut_inputSchema tm)));
                 ToolRegistration add_tool]) tools
  /\ forall tm, In tm tools -> convertible (ut_inputSchema tm).
Proof.
  revert srv. induction tools as [|tm tools IH]; intros srv.
  - intros _. split; [reflexivity|intros tm []].
  - cbn [register_tools_on flat_map]. unfold converted at 1.
    destruct (convert_optional (ut_inputSchema tm)) as [shape|e] eqn:Ec;
      [|discriminate].
    fold (tool_registration tm shape). unfold call.
    destruct (register (ToolRegistration (tool_registration tm shape)) srv) as [s1|e1];
      [|discriminate].
    destruct (register (ToolRegistration add_tool) s1) as [s2|e2]; [|discriminate].
    cbn [fst snd]. intros H. destruct (IH s2 H) as [Hcalls Hconv].
    split; [now rewrite Hcalls|].
    intros tm' [<-|Hin]; [now exists shape|now apply Hconv].
Qed.

Lemma register_resources_on_done resources srv srv' :
  snd (register_resources_on register resources srv) = Resolved srv' ->
  fst (register_resources_on register resources srv)
  = map (fun rm => ResourceRegistration (resource_registration rm)) resources.
Proof.
  revert srv. induction resources as [|rm resources IH]; intros srv.
  - reflexivity.
  - cbn [register_resources_on map]. fold (resource_registration rm). unfold call.
    destruct (register (ResourceRegistration (resource_registration rm)) srv)
      as [s1|e1]; [|discriminate].
    cbn [fst snd]. intros H. now rewrite (IH s1 H).
Qed.

Lemma register_prompts_on_done prompts srv srv' :
  snd (register_prompts_on register prompts srv) = Resolved srv' ->
  fst (register_prompts_on register prompts srv)
  = map (fun pm =>
           PromptRegistration (prompt_registration pm (converted (up_argsSchema pm))))
      prompts
  /\ forall pm, In pm prompts -> convertible (up_argsSchema pm).
Proof.
  revert srv. induction prompts as [|pm prompts IH]; intros srv.
  - intros _. split; [reflexivity|intros pm []].
  - cbn [register_prompts_on map]. unfold converted at 1.
    destruct (convert_optional (up_argsSchema pm)) as [shape|e] eqn:Ec;
      [|discriminate].
    fold (prompt_registration pm shape). unfold call.
    destruct (register (PromptRegistration (prompt_registration pm shape)) srv)
      as [s1|e1]; [|discriminate].
    cbn [fst snd]. intros H. destruct (IH s1 H) as [Hcalls Hconv].
    split; [now rewrite Hcalls|].
    intros pm' [<-|Hin]; [now exists shape|now apply Hconv].
Qed.

(** When the registrations have run through, every planned call was
    made and every schema converted, whatever the SDK is. *)
Lemma register_all_on_done sm srv srv' :
  snd (register_all_on register sm srv) = Resolved srv' ->
  fst (register_all_on register sm srv) = planned_calls sm
  /\ (forall tm, In tm (getUnifiedTools sm) -> convertible (ut_inputSchema tm))
  /\ (forall pm, In pm (getUnifiedPrompts sm) -> convertible (up_argsSchema pm)).
Proof.
  unfold register_all_on, and_then, planned_calls.
  destruct (snd (register_tools_on register (getUnifiedTools sm) srv))
    as [s1|e] eqn:E1.
  - destruct (register_tools_on_done _ _ _ E1) as [H1 Hc1].
    destruct (snd (register_resources_on register (getUnifiedResources sm) s1))
      as [s2|e] eqn:E2.
    + cbn [fst snd]. intros E3.
      destruct (register_prompts_on_done _ _ _ E3) as [H3 Hc3].
      now rewrite H1, (register_resources_on_done _ _ _ E2), H3.
    + cbn [fst snd]. rewrite E2. discriminate.
  - rewrite E1. discriminate.
Qed.

(** An SDK that lets every call return. *)
Hypothesis accepts : forall r s, exists s', register r s = Resolved s'.

Lemma register_tools_on_accepted tools srv :
  (forall tm, In tm tools -> convertible (ut_inputSchema tm)) ->
  exists srv', snd (register_tools_on register tools srv) = Resolved srv'.
Proof.
  revert srv. induction tools as [|tm tools IH]; intros srv Hconv.
  - simpl. eauto.
  - cbn [register_tools_on].
    destruct (Hconv tm (or_introl eq_refl)) as [shape ->]. unfold call.
    destruct (accepts (ToolRegistration
                         {| rt_name := ut_name tm; rt_title := ut_title tm;
                            rt_description := ut_description tm;
                            rt_inputSchema := shape;
                            rt_handler := ProxyHandler tm |}) srv) as [s1 ->].
    destruct (accepts (ToolRegistration add_tool) s1) as [s2 ->].
    cbn [snd]. apply IH. intros tm' Hin. apply Hconv. now right.
Qed.

Lemma register_resources_on_accepted resources srv :
  exists srv', snd (register_resources_on register resources srv) = Resolved srv'.
Proof.
  revert srv. induction resources as [|rm resources IH]; intros srv.
  - simpl. eauto.
  - cbn [register_resources_on]. unfold call.
    destruct (accepts (ResourceRegistration
                         {| rr_name := ur_uri rm; rr_uri := originalResourceUri rm;
                            rr_title := ur_title rm;
                            rr_description := ur_description rm;
                            rr_mimeType := ur_mimeType rm;
                            rr_handler := rm |}) srv) as [s1 ->].
    cbn [snd]. apply IH.
Qed.

Lemma register_prompts_on_accepted prompts srv :
  (forall pm, In pm prompts -> convertible (up_argsSchema pm)) ->
  exists srv', snd (register_prompts_on register prompts srv) = Resolved srv'.
Proof.
  revert srv. induction prompts as [|pm prompts IH]; intros srv Hconv.
  - simpl. eauto.
  - cbn [register_prompts_on].
    destruct (Hconv pm (or_introl eq_refl)) as [shape ->]. unfold call.
    destruct (accepts (PromptRegistration
                         {| rp_name := up_name pm; rp_title := up_title pm;
                            rp_description := up_description pm;
                            rp_argsSchema := shape;
                            rp_handler := pm |}) srv) as [s1 ->].
    cbn [snd]. apply IH. intros pm' Hin. apply Hconv. now right.
Qed.

Lemma register_all_on_accepted sm srv :
  (forall tm, In tm (getUnifiedTools sm) -> convertible (ut_inputSchema tm)) ->
  (forall pm, In pm (getUnifiedPrompts sm) -> convertible (up_argsSchema pm)) ->
  exists srv', snd (register_all_on register sm srv) = Resolved srv'.
Proof.
  intros Ht Hp. unfold register_all_on, and_then.
  destruct (register_tools_on_accepted _ srv Ht) as [s1 ->].
  destruct (register_resources_on_accepted (getUnifiedResources sm) s1) as [s2 ->].
  cbn [snd]. now apply register_prompts_on_accepted.
Qed.

End Completion.

(** X8: on an SDK whose register methods never throw, the registrations
    of [main] run through exactly when the schema of every tool and of
    every prompt converts without throwing. Whatever the SDK is, when they
    have run through every schema did convert and the calls made are, in
    this order: for each unified tool the tool and then [add], then one
    call per unified resource, then one per unified prompt. *)
Theorem registration_succeeds_iff_schemas_convert :
  forall (Server : Type) (register : Registration -> Server -> outcome Server)
         (sm : ServerManager) (srv0 : Server),
    let progress := register_all_on register sm srv0 in
    let schemas_convert :=
      (forall tm, In tm (getUnifiedTools sm) -> convertible (ut_inputSchema tm))
      /\ (forall pm, In pm (getUnifiedPrompts sm) -> convertible (up_argsSchema pm)) in
    (forall srv,
        snd progress = Resolved srv ->
        schemas_convert
        /\ fst progress = planned_calls sm
        /\ length (fst progress)
           = 2 * length (getUnifiedTools sm) + length (getUnifiedResources sm)
             + length (getUnifiedPrompts sm))
    /\ ((forall r s, exists s', register r s = Resolved s') ->
        ((exists srv, snd progress = Resolved srv) <-> schemas_convert)).
Proof.
  intros Server register sm srv0 progress schemas_convert. split.
  - intros srv Hdone.
    destruct (register_all_on_done _ register sm srv0 srv Hdone) as (Hcalls & Ht & Hp).
    split; [now split|]. split; [exact Hcalls|].
    unfold progress. rewrite Hcalls. unfold planned_calls.
    rewrite !length_app, !length_map.
    assert (Hlen : forall (tools : list UnifiedToolMetadata)
                          (f g : UnifiedToolMetadata -> Registration),
               length (flat_map (fun tm => [f tm; g tm]) tools) = 2 * length tools).
    { induction tools as [|tm tools IH]; intros f g; [reflexivity|].
      cbn [flat_map app length]. rewrite IH. lia. }
    rewrite (Hlen _ _ (fun _ => ToolRegistration add_tool)). lia.
  - intros Haccepts. split.
    + intros [srv Hdone].
      destruct (register_all_on_done _ register sm srv0 srv Hdone) as (_ & Ht & Hp).
      now split.
    + intros [Ht Hp]. now apply register_all_on_accepted.
Qed.

Lemma keep_all_accepts r s : exists s', keep_all r s = Resolved s'.
Proof. unfold keep_all. eauto. Qed.

(** A manager whose only tool has a schema with a [null] property. *)
Definition broken_schema : json :=
  JObj [(lit "type", JStr (lit "object"));
        (lit "properties", JObj [(lit "city", JNull)])].

Definition broken_manager : ServerManager :=
  push_tools
    [{| ut_name := lit "maps_route"; ut_title := None; ut_description := None;
        ut_inputSchema := Some broken_schema; ut_serverName := lit "maps";
        originalToolName := lit "route" |}] new_manager.

Lemma registration_succeeds_iff_schemas_convert_witness :
  (exists srv, snd (register_all_on keep_all (manager greeter_router) new_server)
               = Resolved srv)
  /\ ~ (exists srv, snd (register_all_on keep_all broken_manager new_server)
                    = Resolved srv).
Proof.
  split.
  - apply (registration_succeeds_iff_schemas_convert McpServer keep_all
             (manager greeter_router) new_server); [exact keep_all_accepts|].
    split.
    + intros tm [<-|[]]. eexists. vm_compute. reflexivity.
    + intros pm [<-|[]]. eexists. vm_compute. reflexivity.
  - intros H.
    apply (registration_succeeds_iff_schemas_convert McpServer keep_all
             broken_manager new_server) in H; [|exact keep_all_accepts].
    destruct H as [Ht _]. destruct (Ht _ (or_introl eq_refl)) as [shape Hs].
    vm_compute in Hs. discriminate.
Defined.

(** The second instance refuses a tool name it lists. *)
Lemma refuse_twice_refuses t s :
  In (rt_name t) (tools_list s) ->
  exists e, refuse_twice (ToolRegistration t) s = Rejected e.
Proof.
  intros Hin. unfold refuse_twice.
  assert (Htaken : existsb (fun o => streq (rt_name o) (rt_name t)) (registeredTools s)
                   = true).
  { apply existsb_exists. unfold tools_list in Hin. apply in_map_iff in Hin.
    destruct Hin as (o & Ho & Hin). exists o.
    split; [exact Hin|]. now apply streq_true. }
  rewrite Htaken. eauto.
Qed.

(** A run of register calls that ended in an exception after at most [n]
    calls, all of them for tools. *)
Definition stopped {Server : Type} (n : nat) (p : Progress Server) : Prop :=
  (exists e, snd p = Rejected e)
  /\ length (fst p) <= n
  /\ forall c, In c (fst p) -> exists t, c = ToolRegistration t.

Lemma stopped_at_once {Server : Type} (n : nat) (e : JsError) :
  stopped n (@nil Registration, @Rejected Server e).
Proof. split; [now exists e|]. split; [simpl; lia|intros c []]. Qed.

Lemma call_stopped {Server : Type} (register : Registration -> Server -> outcome Server)
  (t : RegisteredTool) (next : Server -> Progress Server) (srv : Server) (n : nat) :
  (forall s, register (ToolRegistration t) srv = Resolved s -> stopped n (next s)) ->
  stopped (S n) (call register (ToolRegistration t) next srv).
Proof.
  intros H. unfold call.
  destruct (register (ToolRegistration t) srv) as [s|e].
  - destruct (H s eq_refl) as (He & Hlen & Hall). split; [exact He|].
    split; [simpl; lia|]. intros c [<-|Hin]; [now exists t|now apply Hall].
  - split; [now exists e|]. split; [simpl; lia|]. intros c [<-|[]]. now exists t.
Qed.

(** X21: on an SDK that lists the tools it has registered and throws when
    a listed name is registered again, two discovered tools are enough to
    stop [main]: the loop over the tools ends in an exception at the
    latest at the second [add], after at most four calls, and no resource
    and no prompt is registered. *)
Theorem second_add_stops_registration :
  forall (Server : Type) (register : Registration -> Server -> outcome Server)
         (tools_of : Server -> list jsstring)
         (sm : ServerManager) (srv0 : Server),
    (forall r s s',
        register r s = Resolved s' ->
        incl (tools_of s) (tools_of s')
        /\ forall t, r = ToolRegistration t -> In (rt_name t) (tools_of s')) ->
    (forall t s, In (rt_name t) (tools_of s) ->
                 exists e, register (ToolRegistration t) s = Rejected e) ->
    2 <= length (getUnifiedTools sm) ->
    let progress := register_all_on register sm srv0 in
    (exists e, snd progress = Rejected e)
    /\ length (fst progress) <= 4
    /\ (forall c, In c (fst progress) -> exists t, c = ToolRegistration t).
Proof.
  intros Server register tools_of sm srv0 Hlists Hrefuses Htwo progress.
  assert (Htools : stopped 4 (register_tools_on register (getUnifiedTools sm) srv0)).
  { destruct (getUnifiedTools sm) as [|t1 [|t2 rest]]; simpl in Htwo; try lia.
    clear Htwo. cbn [register_tools_on].
    destruct (convert_optional (ut_inputSchema t1)) as [shape1|e];
      [|apply stopped_at_once].
    apply call_stopped. intros s1 _.
    apply call_stopped. intros s2 Eadd.
    destruct (Hlists _ _ _ Eadd) as [_ Hadd]. specialize (Hadd add_tool eq_refl).
    destruct (convert_optional (ut_inputSchema t2)) as [shape2|e];
      [|apply stopped_at_once].
    apply call_stopped. intros s3 E3.
    destruct (Hlists _ _ _ E3) as [Hkeep _].
    apply call_stopped. intros s4 E4.
    destruct (Hrefuses add_tool s3 (Hkeep _ Hadd)) as [e Hthrow]. congruence. }
  destruct Htools as ([e He] & Hlen & Hall).
  unfold progress, register_all_on, and_then. rewrite He.
  split; [rewrite He; eauto|]. now split.
Qed.

Lemma second_add_stops_registration_witness :
  let progress := register_all_on refuse_twice (manager twin_router) new_server in
  (exists e, snd progress = Rejected e)
  /\ map rt_name (tool_calls (fst progress))
     = [lit "weather_get"; lit "add"; lit "weather_put"; lit "add"].
Proof.
  destruct (second_add_stops_registration McpServer refuse_twice tools_list
              (manager twin_router) new_server refuse_twice_lists
              refuse_twice_refuses) as (Hstop & _ & _).
  - vm_compute. lia.
  - split; [exact Hstop|]. vm_compute. reflexivity.
Defined.

(** ** Startup without a close *)

(** A run of events in which no child closes. *)
Definition settles_only (events : list Event) : bool :=
  forallb (fun e => match e with Close _ => false | Settle _ => true end) events.

Definition quiet (a : Awaits) : bool :=
  settles_only (at_connect a) && settles_only (at_listTools a)
  && settles_only (at_listResources a) && settles_only (at_listPrompts a).

Lemma occur_quiet events sm :
  settles_only events = true -> pending sm = [] -> occur events sm = sm.
Proof.
  intros Hq Hp. induction events as [|e events IH]; [reflexivity|].
  simpl in Hq. apply andb_prop in Hq. destruct Hq as [He Hq].
  destruct e as [name|i]; [discriminate|].
  simpl. unfold on_settle. rewrite Hp.
  replace (nth_error (@nil Pending) i) with (@None Pending) by now destruct i.
  now apply IH.
Qed.

Lemma say_say a b sm : say b (say a sm) = say (a ++ b) sm.
Proof. unfold say. simpl. now rewrite app_assoc. Qed.

Lemma spawnServer_during_quiet spawn schedule sm entry :
  quiet (schedule (fst entry)) = true ->
  pending sm = [] ->
  spawnServer_during spawn schedule sm entry = spawnServer spawn sm entry.
Proof.
  intros Hq Hp. unfold quiet in Hq.
  apply andb_prop in Hq. destruct Hq as [Hq Hq4].
  apply andb_prop in Hq. destruct Hq as [Hq Hq3].
  apply andb_prop in Hq. destruct Hq as [Hq1 Hq2].
  unfold spawnServer_during, spawnServer.
  destruct (disabled (snd entry)) as [[|]|]; try reflexivity;
    (destruct (spawn (fst entry) (snd entry)) as [child|e]; [|reflexivity];
     cbv zeta;
     rewrite (occur_quiet _ _ Hq1) by exact Hp;
     destruct (connect child) as [u|e]; [|reflexivity];
     rewrite (occur_quiet _ _ Hq2) by exact Hp;
     rewrite (occur_quiet _ _ Hq3) by exact Hp;
     rewrite (occur_quiet _ _ Hq4) by exact Hp;
     now rewrite !say_say).
Qed.

Lemma spawnServer_pending spawn sm entry :
  pending (spawnServer spawn sm entry) = pending sm.
Proof.
  unfold spawnServer.
  destruct (disabled (snd entry)) as [[|]|]; try reflexivity;
    destruct (spawn (fst entry) (snd entry)) as [child|e]; try reflexivity;
    destruct (connect child); reflexivity.
Qed.

(** As long as no child closes during startup, the events of the
    [await]s change nothing: [spawnServers] ends as it does when run in
    one piece. *)
Lemma quiet_startup spawn schedule sm :
  (forall serverName, quiet (schedule serverName) = true) ->
  pending sm = [] ->
  spawnServers_during spawn schedule sm = spawnServers spawn sm.
Proof.
  intros Hq Hp. unfold spawnServers_during, spawnServers.
  destruct (config sm) as [cfg|]; [|reflexivity]. do 2 f_equal.
  revert sm Hp. induction (mcpServers cfg) as [|e entries IH]; intros sm Hp;
    [reflexivity|].
  simpl. rewrite (spawnServer_during_quiet _ _ _ _ (Hq (fst e)) Hp).
  apply IH. now rewrite spawnServer_pending.
Qed.





(** ** Bringing children up and shutting them down *)

(** X10: in a startup during which no child closes, an entry whose
    bring-up fails (it is disabled, [spawn] throws, or [connect] rejects)
    changes nothing for the others: the three collections are what they
    would be without the entry. A child whose process started but whose
    [connect] failed is nevertheless kept in the map of spawned servers;
    an entry that never started a process is not. *)
Theorem failed_bring_up_is_isolated :
  forall (spawn : jsstring -> McpServerConfig -> outcome ChildProcess)
         (schedule : jsstring -> Awaits)
         (before after : list (jsstring * McpServerConfig))
         (e : jsstring * McpServerConfig) (sm1 sm2 : ServerManager),
    (forall serverName, quiet (schedule serverName) = true) ->
    started spawn e = None ->
    NoDup (map fst (before ++ e :: after)) ->
    spawnServers_during spawn schedule
      (loadConfig {| mcpServers := before ++ e :: after |} new_manager)
      = Resolved sm1 ->
    spawnServers_during spawn schedule
      (loadConfig {| mcpServers := before ++ after |} new_manager)
      = Resolved sm2 ->
    unifiedTools sm1 = unifiedTools sm2
    /\ unifiedResources sm1 = unifiedResources sm2
    /\ unifiedPrompts sm1 = unifiedPrompts sm2
    /\ (forall child, spawned spawn e = Some child ->
          option_map process (getSpawnedServer sm1 (fst e)) = Some child)
    /\ (spawned spawn e = None -> getSpawnedServer sm1 (fst e) = None).
Proof.
  intros spawn schedule before after e sm1 sm2 Hq Hfail Hnd H1 H2.
  rewrite (quiet_startup spawn schedule
             (loadConfig {| mcpServers := before ++ e :: after |} new_manager)
             Hq eq_refl) in H1.
  rewrite (quiet_startup spawn schedule
             (loadConfig {| mcpServers := before ++ after |} new_manager)
             Hq eq_refl) in H2.
  destruct (spawnServers_collects _ _ _ H1) as (Ht1 & Hr1 & Hp1 & _).
  destruct (spawnServers_collects _ _ _ H2) as (Ht2 & Hr2 & Hp2 & _).
  simpl in *.
  rewrite Ht1, Hr1, Hp1, Ht2, Hr2, Hp2, !flat_map_app. simpl.
  unfold discovered_tools, discovered_resources, discovered_prompts.
  rewrite Hfail. simpl.
  split; [reflexivity|]. split; [reflexivity|]. split; [reflexivity|]. split.
  - intros child Hsp. destruct e as [a c]. cbn [fst].
    rewrite (spawnServers_running spawn _ sm1 a c child H1 Hnd); [reflexivity| |exact Hsp].
    simpl. apply in_or_app. right. now left.
  - intros Hsp. unfold spawnServers in H1. simpl in H1. injection H1 as <-.
    unfold getSpawnedServer. simpl.
    rewrite fold_left_app. simpl.
    rewrite map_app in Hnd. simpl in Hnd.
    rewrite spawn_loop_other by (apply NoDup_remove_2 in Hnd; intros H; apply Hnd;
                                 apply in_or_app; now right).
    rewrite spawnServer_servers, Hsp.
    rewrite spawn_loop_other; [reflexivity|].
    apply NoDup_remove_2 in Hnd. intros H. apply Hnd. apply in_or_app. now left.
Qed.

(** A server that starts but refuses the connection, between the two of
    [twin_config]. *)
Definition deaf_child : ChildProcess :=
  {| connect := Rejected (mkError (lit "handshake failed"));
     listTools := Resolved (Items [tool_named "never"]);
     listResources := Resolved (Items []);
     listPrompts := Resolved (Items []);
     callTool := fun _ => Rejected method_not_found;
     readResource := fun _ => Rejected method_not_found |}.

Definition mixed_spawn (serverName : jsstring) (c : McpServerConfig)
  : outcome ChildProcess :=
  if streq serverName (lit "deaf") then Resolved deaf_child
  else twin_spawn serverName c.

Definition mixed_entries : list (jsstring * McpServerConfig) :=
  [(lit "weather", stdio "node"); (lit "deaf", stdio "deaf");
   (lit "database", stdio "python")].

(** The manager [spawnServers] leaves for some entries and events. *)
Definition mixed_manager (schedule : jsstring -> Awaits)
  (entries : list (jsstring * McpServerConfig)) : ServerManager :=
  say [Log (lit "All configured servers processed.")]
    (fold_left (spawnServer_during mixed_spawn schedule) entries
       (loadConfig {| mcpServers := entries |} new_manager)).

Lemma failed_bring_up_is_isolated_witness :
  let with_deaf := mixed_manager (fun _ => undisturbed) mixed_entries in
  let without :=
    mixed_manager (fun _ => undisturbed)
      [(lit "weather", stdio "node"); (lit "database", stdio "python")] in
  unifiedTools with_deaf = unifiedTools without
  /\ unifiedResources with_deaf = unifiedResources without
  /\ unifiedPrompts with_deaf = unifiedPrompts without
  /\ (forall child, spawned mixed_spawn (lit "deaf", stdio "deaf") = Some child ->
        option_map process (getSpawnedServer with_deaf (lit "deaf")) = Some child)
  /\ (spawned mixed_spawn (lit "deaf", stdio "deaf") = None ->
      getSpawnedServer with_deaf (lit "deaf") = None).
Proof.
  apply (failed_bring_up_is_isolated mixed_spawn (fun _ => undisturbed)
           [(lit "weather", stdio "node")] [(lit "database", stdio "python")]
           (lit "deaf", stdio "deaf")).
  - intros serverName. reflexivity.
  - reflexivity.
  - repeat constructor; vm_compute; intuition discriminate.
  - reflexivity.
  - reflexivity.
Defined.

(** Without that condition the property fails. When the child that
    refused the connection exits while the next server is being connected,
    its ['close'] handler empties the collections: [spawnServers] returns
    with the tools of the last server only, and those of the first come
    back when the calls the handler issued settle, behind the others. *)
Lemma close_during_startup_wipes_earlier_servers :
  let schedule name :=
    if streq name (lit "database")
    then {| at_connect := [Close (lit "deaf")]; at_listTools := [];
            at_listResources := []; at_listPrompts := [] |}
    else undisturbed in
  let sm := mixed_manager schedule mixed_entries in
  map ut_name (unifiedTools sm) = [lit "database_get"; lit "database_put"]
  /\ getSpawnedServer sm (lit "deaf") = None
  /\ length (pending sm) = 6
  /\ map ut_name (unifiedTools (occur [Settle 0; Settle 2] sm))
     = [lit "database_get"; lit "database_put";
        lit "weather_get"; lit "weather_put";
        lit "database_get"; lit "database_put"].
Proof. vm_compute. repeat split. Qed.

(** X11: after [stopAllServers] the map and the three collections are
    empty, one "Stopping server" line per server has been written, in the
    order of the map, and every proxied handler (tool, resource, prompt)
    throws "Server ... not found or not running." without reaching any
    child. *)
Theorem stopped_manager_serves_nothing :
  forall (sm : ServerManager),
    let stopped := stopAllServers sm in
    (forall serverName, getSpawnedServer stopped serverName = None)
    /\ getUnifiedTools stopped = []
    /\ getUnifiedResources stopped = []
    /\ getUnifiedPrompts stopped = []
    /\ console stopped
       = console sm
           ++ map (fun e => Log (lit "Stopping server: " ++ fst e)) (spawnedServers sm)
    /\ (forall toolMetadata args,
          proxyHandler stopped toolMetadata args
          = Rejected (not_running (ut_serverName toolMetadata)))
    /\ (forall resourceMetadata,
          resourceHandler stopped resourceMetadata
          = Rejected (not_running (ur_serverName resourceMetadata)))
    /\ (forall promptMetadata args,
          promptHandler stopped promptMetadata args
          = Rejected (not_running (up_serverName promptMetadata))).
Proof.
  intros sm. simpl. repeat split.
Qed.

(** ** Rebuilding after a close *)

(** What the callbacks of the three list calls on a client push. *)
Definition rebuilt_tools (c : Client) : list UnifiedToolMetadata :=
  map (mkTool (client_name c)) (listed (listTools (peer c))).

Definition rebuilt_resources (c : Client) : list UnifiedResourceMetadata :=
  map (mkResource (client_name c)) (listed (listResources (peer c))).

Definition rebuilt_prompts (c : Client) : list UnifiedPromptMetadata :=
  map (mkPrompt (client_name c)) (listed (listPrompts (peer c))).

Definition three_calls (e : jsstring * SpawnedServer) : list Pending :=
  [PendingTools (client (snd e)); PendingResources (client (snd e));
   PendingPrompts (client (snd e))].

(** The manager while the calls for the servers [waiting] are unsettled. *)
Record rebuilding (waiting : list (jsstring * SpawnedServer))
  (tools : list UnifiedToolMetadata) (resources : list UnifiedResourceMetadata)
  (prompts : list UnifiedPromptMetadata) (servers : list (jsstring * SpawnedServer))
  (sm : ServerManager) : Prop := {
  rb_pending : pending sm = flat_map three_calls waiting;
  rb_tools : unifiedTools sm = tools;
  rb_resources : unifiedResources sm = resources;
  rb_prompts : unifiedPrompts sm = prompts;
  rb_servers : spawnedServers sm = servers
}.

Lemma settleTools_fields c sm :
  let sm' := settleTools c (listTools (peer c)) sm in
  unifiedTools sm' = unifiedTools sm ++ rebuilt_tools c
  /\ unifiedResources sm' = unifiedResources sm
  /\ unifiedPrompts sm' = unifiedPrompts sm
  /\ spawnedServers sm' = spawnedServers sm
  /\ pending sm' = pending sm.
Proof.
  unfold settleTools, rebuilt_tools.
  destruct (listTools (peer c)) as [[l|raw]|e]; simpl;
    rewrite ?app_nil_r; repeat split.
Qed.

Lemma settleResources_fields c sm :
  let sm' := settleResources c (listResources (peer c)) sm in
  unifiedTools sm' = unifiedTools sm
  /\ unifiedResources sm' = unifiedResources sm ++ rebuilt_resources c
  /\ unifiedPrompts sm' = unifiedPrompts sm
  /\ spawnedServers sm' = spawnedServers sm
  /\ pending sm' = pending sm.
Proof.
  unfold settleResources, rebuilt_resources.
  destruct (listResources (peer c)) as [[l|raw]|e]; simpl;
    rewrite ?app_nil_r; repeat split.
Qed.

Lemma settlePrompts_fields c sm :
  let sm' := settlePrompts c (listPrompts (peer c)) sm in
  unifiedTools sm' = unifiedTools sm
  /\ unifiedResources sm' = unifiedResources sm
  /\ unifiedPrompts sm' = unifiedPrompts sm ++ rebuilt_prompts c
  /\ spawnedServers sm' = spawnedServers sm
  /\ pending sm' = pending sm.
Proof.
  unfold settlePrompts, rebuilt_prompts.
  destruct (listPrompts (peer c)) as [[l|raw]|e]; simpl;
    rewrite ?app_nil_r; repeat split.
Qed.

Lemma on_settle_head p rest sm :
  pending sm = p :: rest ->
  on_settle 0 sm
  = match p with
    | PendingTools c => settleTools c (listTools (peer c)) (with_pending rest sm)
    | PendingResources c =>
        settleResources c (listResources (peer c)) (with_pending rest sm)
    | PendingPrompts c =>
        settlePrompts c (listPrompts (peer c)) (with_pending rest sm)
    end.
Proof. intros H. unfold on_settle. rewrite H. reflexivity. Qed.

Lemma rebuilding_step e waiting tools resources prompts servers sm :
  rebuilding (e :: waiting) tools resources prompts servers sm ->
  rebuilding waiting
    (tools ++ rebuilt_tools (client (snd e)))
    (resources ++ rebuilt_resources (client (snd e)))
    (prompts ++ rebuilt_prompts (client (snd e)))
    servers
    (on_settle 0 (on_settle 0 (on_settle 0 sm))).
Proof.
  intros [Hp Ht Hr Hpr Hs]. simpl in Hp.
  set (c := client (snd e)) in *.
  rewrite (on_settle_head _ _ sm Hp).
  destruct (settleTools_fields c
              (with_pending (PendingResources c :: PendingPrompts c
                               :: flat_map three_calls waiting) sm))
    as (T1 & R1 & P1 & S1 & Q1).
  simpl in T1, R1, P1, S1, Q1.
  set (sm1 := settleTools c (listTools (peer c)) _) in *.
  rewrite (on_settle_head _ _ sm1 Q1).
  destruct (settleResources_fields c
              (with_pending (PendingPrompts c :: flat_map three_calls waiting) sm1))
    as (T2 & R2 & P2 & S2 & Q2).
  simpl in T2, R2, P2, S2, Q2.
  set (sm2 := settleResources c (listResources (peer c)) _) in *.
  rewrite (on_settle_head _ _ sm2 Q2).
  destruct (settlePrompts_fields c
              (with_pending (flat_map three_calls waiting) sm2))
    as (T3 & R3 & P3 & S3 & Q3).
  simpl in T3, R3, P3, S3, Q3.
  constructor.
  - exact Q3.
  - now rewrite T3, T2, T1, Ht.
  - now rewrite R3, R2, R1, Hr.
  - now rewrite P3, P2, P1, Hpr.
  - now rewrite S3, S2, S1, Hs.
Qed.

Lemma rebuilding_completes waiting :
  forall tools resources prompts servers sm,
    rebuilding waiting tools resources prompts servers sm ->
    rebuilding []
      (tools ++ flat_map (fun e => rebuilt_tools (client (snd e))) waiting)
      (resources ++ flat_map (fun e => rebuilt_resources (client (snd e))) waiting)
      (prompts ++ flat_map (fun e => rebuilt_prompts (client (snd e))) waiting)
      servers
      (Nat.iter (3 * length waiting) (on_settle 0) sm).
Proof.
  induction waiting as [|e waiting IH]; intros tools resources prompts servers sm H.
  - simpl. now rewrite !app_nil_r.
  - replace (3 * length (e :: waiting)) with (S (S (S (3 * length waiting))))
      by (simpl; lia).
    rewrite !Nat.iter_succ_r.
    apply rebuilding_step in H. apply IH in H.
    simpl. now rewrite !app_assoc.
Qed.

(** X12: what a close leads to once the re-issued calls have settled.
    If no call was unsettled when child [a] closed, and the calls the
    handler issued settle in the order they were issued, the manager ends
    with no unsettled call and with exactly the capabilities the
    surviving servers list, in the order of the map, named after their
    clients; the closed child is gone from the map. *)
Theorem rebuild_restores_survivors :
  forall (sm : ServerManager) (a : jsstring),
    pending sm = [] ->
    let closed := on_close a sm in
    let survivors := map_delete a (spawnedServers sm) in
    let settled := Nat.iter (length (pending closed)) (on_settle 0) closed in
    length (pending closed) = 3 * length survivors
    /\ pending settled = []
    /\ spawnedServers settled = survivors
    /\ getSpawnedServer settled a = None
    /\ unifiedTools settled
       = flat_map (fun e => rebuilt_tools (client (snd e))) survivors
    /\ unifiedResources settled
       = flat_map (fun e => rebuilt_resources (client (snd e))) survivors
    /\ unifiedPrompts settled
       = flat_map (fun e => rebuilt_prompts (client (snd e))) survivors.
Proof.
  intros sm a Hp closed survivors settled.
  assert (Hr : rebuilding survivors [] [] [] survivors closed).
  { subst closed survivors. unfold on_close. constructor; simpl; try reflexivity.
    now rewrite Hp. }
  assert (Hlen : length (pending closed) = 3 * length survivors).
  { rewrite (rb_pending _ _ _ _ _ _ Hr). clear.
    induction survivors as [|e es IH]; [reflexivity|]. simpl in *. lia. }
  apply rebuilding_completes in Hr.
  split; [exact Hlen|]. subst settled. rewrite Hlen.
  destruct Hr as [Q T R P S].
  split; [exact Q|]. split; [exact S|].
  split; [|split; [exact T|split; [exact R|exact P]]].
  unfold getSpawnedServer. rewrite S. apply map_get_delete_same.
Qed.

(** The manager running on [twin_config]. *)
Definition twin_manager : ServerManager := manager twin_router.

Lemma rebuild_restores_survivors_witness :
  let closed := on_close (lit "weather") twin_manager in
  let survivors := map_delete (lit "weather") (spawnedServers twin_manager) in
  let settled := Nat.iter (length (pending closed)) (on_settle 0) closed in
  length (pending closed) = 3 * length survivors
  /\ pending settled = []
  /\ spawnedServers settled = survivors
  /\ getSpawnedServer settled (lit "weather") = None
  /\ unifiedTools settled
     = flat_map (fun e => rebuilt_tools (client (snd e))) survivors
  /\ unifiedResources settled
     = flat_map (fun e => rebuilt_resources (client (snd e))) survivors
  /\ unifiedPrompts settled
     = flat_map (fun e => rebuilt_prompts (client (snd e))) survivors.
Proof.
  apply (rebuild_restores_survivors twin_manager (lit "weather")).
  vm_compute. reflexivity.
Defined.

(** ** The proxy handlers on failing calls *)

(** X13: what the prompt handler can answer while its server is in the
    map. It resolves only when the child's [callTool] resolved with a
    result that has a [content] member other than [null]; the answer then
    has one message, of role "assistant", whose content is the first
    content item when [content] is an array, and a [_meta] that is the
    result's own when that is truthy and [{}] otherwise. In every other
    case it throws an error whose message starts with
    "Failed to execute prompt: ". *)
Theorem prompt_handler_outcomes :
  forall (sm : ServerManager) (promptMetadata : UnifiedPromptMetadata)
         (args : json) (serverEntry : SpawnedServer),
    getSpawnedServer sm (up_serverName promptMetadata) = Some serverEntry ->
    let call := callTool (peer (client serverEntry))
                  {| call_name := originalPromptName promptMetadata;
                     call_arguments := args |} in
    (forall answer,
        promptHandler sm promptMetadata args = Resolved answer ->
        exists result,
          call = Resolved result
          /\ (exists content, lookup result [Key (lit "content")] = Some content
                              /\ content <> JNull)
          /\ lookup answer [Key (lit "messages"); Idx 0; Key (lit "role")]
             = Some (JStr (lit "assistant"))
          /\ lookup answer [Key (lit "messages"); Idx 1] = None
          /\ (forall items, lookup result [Key (lit "content")] = Some (JArr items) ->
                lookup answer [Key (lit "messages"); Idx 0; Key (lit "content")]
                = nth_error items 0)
          /\ lookup answer [Key (lit "_meta")]
             = Some (match lookup result [Key (lit "_meta")] with
                     | Some m => if truthy m then m else JObj []
                     | None => JObj []
                     end))
    /\ (forall error,
          promptHandler sm promptMetadata args = Rejected error ->
          exists text,
            message error = Some (lit "Failed to execute prompt: " ++ text))
    /\ ((exists error, promptHandler sm promptMetadata args = Rejected error)
        <-> (exists error, call = Rejected error)
            \/ (exists result,
                   call = Resolved result
                   /\ (lookup result [Key (lit "content")] = None
                       \/ lookup result [Key (lit "content")] = Some JNull))).
Proof.
  intros sm pm args entry Hget call.
  unfold promptHandler. rewrite Hget. fold call.
  destruct call as [result|e] eqn:Ecall.
  - assert (Hfc : (exists c, first_content result = Resolved c
                             /\ exists content,
                                 lookup result [Key (lit "content")] = Some content
                                 /\ content <> JNull
                                 /\ forall items, content = JArr items ->
                                                  c = nth_error items 0)
                  \/ (exists e, first_content result = Rejected e
                                /\ (lookup result [Key (lit "content")] = None
                                    \/ lookup result [Key (lit "content")]
                                       = Some JNull))).
    { rewrite lookup_key. unfold first_content.
      destruct result as [| | | | |members]; simpl;
        try (right; eexists; split; [reflexivity|now left]).
      destruct (assoc (lit "content") members) as [[| | |s|items|ms]|].
      - right. eexists. split; [reflexivity|now right].
      - left. eexists. split; [reflexivity|]. eexists.
        split; [reflexivity|]. split; [discriminate|]. discriminate.
      - left. eexists. split; [reflexivity|]. eexists.
        split; [reflexivity|]. split; [discriminate|]. discriminate.
      - left. eexists. split; [reflexivity|]. eexists.
        split; [reflexivity|]. split; [discriminate|]. discriminate.
      - left. eexists. split; [reflexivity|]. eexists.
        split; [reflexivity|]. split; [discriminate|].
        intros items' H. now injection H as <-.
      - left. eexists. split; [reflexivity|]. eexists.
        split; [reflexivity|]. split; [discriminate|]. discriminate.
      - right. eexists. split; [reflexivity|now left]. }
    destruct Hfc as [(c & Hc & content & Hl & Hnn & Harr)|(e & He & Hbad)].
    + rewrite Hc. split; [|split].
      * intros answer H. injection H as <-. exists result.
        split; [reflexivity|]. split; [eauto|].
        split; [now destruct c|]. split; [now destruct c|]. split.
        -- intros items Hi. rewrite Hl in Hi. injection Hi as ->.
           rewrite (Harr items eq_refl). now destruct (nth_error items 0).
        -- rewrite !lookup_key. unfold meta_or_empty. now destruct c.
      * intros error H. discriminate.
      * split.
        -- intros [error H]. discriminate.
        -- intros [[error H]|(r & Hr & Hb)]; [discriminate|].
           injection Hr as <-. rewrite Hl in Hb.
           destruct Hb as [Hb|Hb]; [discriminate|]. injection Hb as ->.
           now contradiction Hnn.
    + rewrite He. split; [|split].
      * intros answer H. discriminate.
      * intros error H. injection H as <-. eexists. reflexivity.
      * split; [|eauto]. intros _. right. exists result. now split.
  - split; [|split].
    + intros answer H. discriminate.
    + intros error H. injection H as <-. eexists. reflexivity.
    + split; [|eauto]. intros _. left. eauto.
Qed.

Lemma prompt_handler_outcomes_witness :
  exists answer,
    promptHandler (manager greeter_router)
      (mkPrompt (lit "greeter") (prompt_named "greet")) (JObj []) = Resolved answer
    /\ lookup answer [Key (lit "messages"); Idx 0; Key (lit "role")]
       = Some (JStr (lit "assistant"))
    /\ lookup answer [Key (lit "messages"); Idx 0; Key (lit "content")]
       = Some (JObj [(lit "type", JStr (lit "text"));
                     (lit "text", JStr (lit "hello"))])
    /\ lookup answer [Key (lit "_meta")] = Some (JObj []).
Proof.
  destruct (prompt_handler_outcomes (manager greeter_router)
              (mkPrompt (lit "greeter") (prompt_named "greet")) (JObj [])
              (server_entry (lit "greeter") greeter_child))
    as (Hok & _ & _).
  - vm_compute. reflexivity.
  - eexists. split; [vm_compute; reflexivity|].
    destruct (Hok _ ltac:(vm_compute; reflexivity))
      as (result & Hcall & _ & Hrole & _ & Hcontent & Hmeta).
    injection Hcall as <-.
    split; [exact Hrole|]. split; [|exact Hmeta].
    rewrite (Hcontent _ eq_refl). reflexivity.
Defined.

(** X14: an error without a message. When the value the child's call was
    rejected with has no [message] or an empty one, the resource handler
    throws "Failed to read resource: Unknown error", the prompt handler
    throws "Failed to execute prompt: Unknown error" and the tool handler
    returns the string "Error: Unknown error"; with a message, each puts
    the message in that place. *)
Theorem handlers_name_unknown_errors :
  forall (sm : ServerManager) (serverEntry : SpawnedServer) (error : JsError)
         (toolMetadata : UnifiedToolMetadata)
         (resourceMetadata : UnifiedResourceMetadata)
         (promptMetadata : UnifiedPromptMetadata) (args : json),
    getSpawnedServer sm (ut_serverName toolMetadata) = Some serverEntry ->
    getSpawnedServer sm (ur_serverName resourceMetadata) = Some serverEntry ->
    getSpawnedServer sm (up_serverName promptMetadata) = Some serverEntry ->
    (forall request, callTool (peer (client serverEntry)) request = Rejected error) ->
    (forall request, readResource (peer (client serverEntry)) request
                     = Rejected error) ->
    let said :=
      match message error with
      | Some text => if streq text [] then lit "Unknown error" else text
      | None => lit "Unknown error"
      end in
    proxyHandler sm toolMetadata args = Resolved (JStr (lit "Error: " ++ said))
    /\ resourceHandler sm resourceMetadata
       = Rejected (mkError (lit "Failed to read resource: " ++ said))
    /\ promptHandler sm promptMetadata args
       = Rejected (mkError (lit "Failed to execute prompt: " ++ said)).
Proof.
  intros sm entry error tm rm pm args Ht Hr Hp Hcall Hread said.
  assert (Hsaid : message_or error (lit "Unknown error") = said).
  { subst said. unfold message_or. destruct (message error) as [[|c r]|]; reflexivity. }
  unfold proxyHandler, resourceHandler, promptHandler.
  now rewrite Ht, Hr, Hp, !Hcall, Hread, Hsaid.
Qed.

(** A child that rejects every call with a value that is not an [Error]. *)
Definition mute_child : ChildProcess :=
  {| connect := Resolved tt;
     listTools := Resolved (Items [tool_named "t"]);
     listResources := Resolved (Items [resource_at "r://x"]);
     listPrompts := Resolved (Items [prompt_named "p"]);
     callTool := fun _ => Rejected {| message := None |};
     readResource := fun _ => Rejected {| message := None |} |}.

Definition mute_manager : ServerManager :=
  say [Log (lit "All configured servers processed.")]
    (fold_left (spawnServer (fun _ _ => Resolved mute_child))
       [(lit "mute", stdio "mute")]
       (loadConfig {| mcpServers := [(lit "mute", stdio "mute")] |} new_manager)).

Lemma handlers_name_unknown_errors_witness :
  proxyHandler mute_manager (mkTool (lit "mute") (tool_named "t")) (JObj [])
    = Resolved (JStr (lit "Error: Unknown error"))
  /\ resourceHandler mute_manager (mkResource (lit "mute") (resource_at "r://x"))
     = Rejected (mkError (lit "Failed to read resource: Unknown error"))
  /\ promptHandler mute_manager (mkPrompt (lit "mute") (prompt_named "p")) (JObj [])
     = Rejected (mkError (lit "Failed to execute prompt: Unknown error")).
Proof.
  apply (handlers_name_unknown_errors mute_manager
           (server_entry (lit "mute") mute_child) {| message := None |}
           (mkTool (lit "mute") (tool_named "t"))
           (mkResource (lit "mute") (resource_at "r://x"))
           (mkPrompt (lit "mute") (prompt_named "p")) (JObj []));
    try (vm_compute; reflexivity); intros request; reflexivity.
Defined.

(** ** The unbuffered handler of the first revision *)

Section LegacyFacts.
Variable JSON_parse : jsstring -> option json.
Variable toString : list N -> jsstring.

Lemma legacy_each_good onmessage good parsed more :
  Forall2 (fun l m => JSON_parse l = Some m) good parsed ->
  Legacy.each JSON_parse onmessage (good ++ more)
  = ((if onmessage then map OnMessage parsed else [])
       ++ fst (Legacy.each JSON_parse onmessage more),
     snd (Legacy.each JSON_parse onmessage more)).
Proof.
  induction 1 as [|l m good parsed Hl _ IH]; simpl.
  - destruct onmessage; simpl; now destruct (Legacy.each _ _ more).
  - rewrite Hl, IH. simpl. now destruct onmessage.
Qed.

End LegacyFacts.

(** X15: the data handler of the first revision of the transport. It
    parses the non-empty pieces that the line feeds cut the chunk into, as
    they are (untrimmed, a piece cut off by the end of the chunk included),
    and hands each parsed message to the callback unchanged. At the first
    piece that does not parse it stops: the pieces behind it are dropped,
    and the one report it makes quotes the whole chunk. *)
Theorem legacy_handler_stops_at_first_failure :
  forall (JSON_parse : jsstring -> option json) (toString : list N -> jsstring)
         (t : CustomStdioClientTransport) (data : list N)
         (good : list jsstring) (parsed : list json)
         (bad : jsstring) (dropped : list jsstring),
    filter Legacy.nonempty (Legacy.split (toString data))
      = good ++ bad :: dropped ->
    Forall2 (fun l m => JSON_parse l = Some m) good parsed ->
    JSON_parse bad = None ->
    Legacy.on_data JSON_parse toString t data
    = (if _onmessageCallback t then map OnMessage parsed else [])
        ++ (if _onerrorCallback t
            then [OnError (lit "Failed to parse message from child process: "
                             ++ toString data)]
            else []).
Proof.
  intros P toS t data good parsed bad dropped Hlines Hgood Hbad.
  unfold Legacy.on_data. rewrite Hlines.
  rewrite (legacy_each_good P _ good parsed (bad :: dropped) Hgood).
  simpl. rewrite Hbad. simpl. now rewrite app_nil_r.
Qed.

Lemma legacy_handler_stops_at_first_failure_witness :
  Legacy.on_data Reference.JSON_parse Reference.toString connected
    (quoted "{'id':1}" ++ [LF] ++ quoted "{'id':" ++ [LF] ++ quoted "{'id':3}")
  = [OnMessage (JObj [(lit "id", JNum 1)]);
     OnError (lit "Failed to parse message from child process: "
                ++ quoted "{'id':1}" ++ [LF] ++ quoted "{'id':" ++ [LF]
                ++ quoted "{'id':3}")].
Proof.
  apply (legacy_handler_stops_at_first_failure
           Reference.JSON_parse Reference.toString connected
           (quoted "{'id':1}" ++ [LF] ++ quoted "{'id':" ++ [LF] ++ quoted "{'id':3}")
           [quoted "{'id':1}"] [JObj [(lit "id", JNum 1)]]
           (quoted "{'id':") [quoted "{'id':3}"]).
  - vm_compute. reflexivity.
  - constructor; [vm_compute; reflexivity|constructor].
  - vm_compute. reflexivity.
Defined.

(** X16: when every non-empty piece of a chunk parses, the first
    revision's handler delivers the parsed messages in order and reports
    nothing; a [structuredContent] of [null] goes through as it is. *)
Theorem legacy_handler_delivers_uncorrected :
  forall (JSON_parse : jsstring -> option json) (toString : list N -> jsstring)
         (t : CustomStdioClientTransport) (data : list N) (parsed : list json),
    Forall2 (fun l m => JSON_parse l = Some m)
      (filter Legacy.nonempty (Legacy.split (toString data))) parsed ->
    Legacy.on_data JSON_parse toString t data
    = (if _onmessageCallback t then map OnMessage parsed else []).
Proof.
  intros P toS t data parsed Hgood.
  unfold Legacy.on_data.
  rewrite <- (app_nil_r (filter _ _)).
  rewrite (legacy_each_good P _ _ parsed [] Hgood).
  simpl. now rewrite app_nil_r.
Qed.

Lemma legacy_handler_delivers_uncorrected_witness :
  Legacy.on_data Reference.JSON_parse Reference.toString connected
    (quoted "{'jsonrpc':'2.0','result':{'structuredContent':null}}" ++ [LF])
  = [OnMessage
       (JObj [(lit "jsonrpc", JStr (lit "2.0"));
              (lit "result", JObj [(lit "structuredContent", JNull)])])].
Proof.
  apply (legacy_handler_delivers_uncorrected
           Reference.JSON_parse Reference.toString connected
           (quoted "{'jsonrpc':'2.0','result':{'structuredContent':null}}" ++ [LF])
           [JObj [(lit "jsonrpc", JStr (lit "2.0"));
                  (lit "result", JObj [(lit "structuredContent", JNull)])]]).
  vm_compute. constructor; [reflexivity|constructor].
Defined.

(** ** Sessions of the HTTP endpoint *)

Section SessionFacts.
Variable T : Type.
Variable isInitializeRequest : json -> bool.


Lemma header_truthy_some (sid : jsstring) :
  sid <> [] -> header_truthy (Some sid) = Some sid.
Proof. destruct sid; [congruence|reflexivity]. Qed.

Lemma stored_initialized_other (transports : list (jsstring * T)) sid tr other :
  other <> sid ->
  stored (session_initialized sid tr transports) other = stored transports other.
Proof.
  intros H. unfold stored, session_initialized.
  now rewrite map_get_set_other.
Qed.

Lemma stored_closed_other (transports : list (jsstring * T)) sid other :
  other <> sid ->
  stored (session_closed (Some sid) transports) other = stored transports other.
Proof.
  intros H. unfold stored, session_closed.
  destruct (header_truthy (Some sid)) as [s|] eqn:E; [|reflexivity].
  destruct sid; [discriminate|]. injection E as <-.
  now rewrite map_get_delete_other.
Qed.

End SessionFacts.

(** X17: the life of a session. Once [onsessioninitialized] has stored a
    transport under a session id, a [POST] and a [GET] or [DELETE] with that
    id in the header reach that transport, whatever the body is; once the
    transport's [onclose] has run, the same id is refused by both (400);
    neither step changes what any other id leads to. *)
Theorem session_lifecycle :
  forall (T : Type) (isInitializeRequest : json -> bool)
         (transports : list (jsstring * T)) (sessionId : jsstring)
         (transport : T) (b : json),
    sessionId <> [] ->
    inherited sessionId = false ->
    let req := {| session_header := Some sessionId; body := b |} in
    let opened := session_initialized sessionId transport transports in
    let closed := session_closed (Some sessionId) opened in
    route_post isInitializeRequest opened req = Reuse transport
    /\ handleSessionRequest opened req = HandedTo (Some transport)
    /\ route_post isInitializeRequest closed req = BadRequest T
    /\ handleSessionRequest closed req = InvalidSession T
    /\ (forall other, other <> sessionId ->
          stored opened other = stored transports other
          /\ stored closed other = stored transports other).
Proof.
  intros T isInit transports sid tr b Hne Hinh req opened closed.
  assert (Hopen : stored opened sid = OwnTransport tr).
  { unfold stored, opened, session_initialized. now rewrite map_get_set_same. }
  assert (Hclosed : stored closed sid = Undefined).
  { unfold stored, closed, session_closed.
    rewrite (header_truthy_some _ Hne), map_get_delete_same. now rewrite Hinh. }
  unfold route_post, handleSessionRequest. subst req. simpl session_header.
  rewrite (header_truthy_some _ Hne), Hopen, Hclosed.
  repeat (split; [reflexivity|]).
  intros other Hother. split.
  - now apply stored_initialized_other.
  - unfold closed. rewrite stored_closed_other by assumption.
    now apply stored_initialized_other.
Qed.

Lemma session_lifecycle_witness :
  let req := {| session_header := Some (lit "7f3a"); body := JNull |} in
  let opened := session_initialized (lit "7f3a") 1%nat [(lit "0c2e", 0%nat)] in
  route_post (fun _ => false) opened req = Reuse 1%nat
  /\ route_post (fun _ => false)
       (session_closed (Some (lit "7f3a")) opened) req = BadRequest nat
  /\ stored (session_closed (Some (lit "7f3a")) opened) (lit "0c2e")
     = OwnTransport 0%nat.
Proof.
  destruct (session_lifecycle nat (fun _ => false) [(lit "0c2e", 0%nat)]
              (lit "7f3a") 1%nat JNull)
    as (Hpost & _ & Hrefused & _ & Hother).
  - discriminate.
  - vm_compute. reflexivity.
  - split; [exact Hpost|]. split; [exact Hrefused|].
    destruct (Hother (lit "0c2e")) as [_ H]; [discriminate|exact H].
Defined.

(** The status of a response the router wrote itself. *)
Definition written_status {T : Type} (a : Answer T) : option Z :=
  match a with
  | Written _ response => Some (status response)
  | _ => None
  end.

(** X18: when the [POST] handler answers 400. It writes the
    "Bad Request: No valid session ID provided" response exactly when the
    request carries a session id that leads to nothing, or carries none (or
    an empty one) and is not an initialize request. So an initialize request
    that names an unknown session is refused, and in no such case is the
    server connected or a transport handed the request. *)
Theorem post_is_refused_iff :
  forall (T : Type) (isInitializeRequest : json -> bool)
         (connect : outcome unit)
         (handleRequest : option T -> Request -> outcome unit)
         (transports : list (jsstring * T)) (req : Request),
    post_mcp isInitializeRequest connect handleRequest transports req
      = Written T bad_request
    <-> match session_header req with
        | Some (c :: r) =>
            map_get (c :: r) transports = None /\ inherited (c :: r) = false
        | _ => isInitializeRequest (body req) = false
        end.
Proof.
  intros T isInit connect handle transports req.
  unfold post_mcp, route_post, stored.
  destruct (session_header req) as [[|c r]|]; cbv beta iota delta [header_truthy].
  - destruct (isInit (body req)); [|tauto].
    split; [|intros H; discriminate H].
    destruct connect; cbv beta iota; [|intros H; discriminate H].
    destruct (handle None req); cbv beta iota; [intros H; discriminate H|].
    intros H. apply (f_equal written_status) in H. discriminate.
  - destruct (map_get (c :: r) transports) as [tr|].
    + split; [|intros [H _]; discriminate].
      destruct (handle (Some tr) req); cbv beta iota; [intros H; discriminate H|].
      intros H. apply (f_equal written_status) in H. discriminate.
    + destruct (inherited (c :: r)).
      * split; [|intros [_ H]; discriminate].
        intros H. apply (f_equal written_status) in H. discriminate.
      * tauto.
  - destruct (isInit (body req)); [|tauto].
    split; [|intros H; discriminate H].
    destruct connect; cbv beta iota; [|intros H; discriminate H].
    destruct (handle None req); cbv beta iota; [intros H; discriminate H|].
    intros H. apply (f_equal written_status) in H. discriminate.
Qed.



(** X20: a transport whose [handleRequest] fails. Whether the transport
    was found under the session id or freshly made for an initialize
    request, the [POST] handler answers 500 with a JSON-RPC error of code
    -32003 whose message is "Internal server error: " and the error's
    message ("Unknown error" without one), and whose [id] is the id of the
    request's body when that is truthy and [null] otherwise, so that a
    request with id [0] is answered with id [null]. *)
Theorem failed_request_is_answered_500 :
  forall (T : Type) (isInitializeRequest : json -> bool)
         (connect : outcome unit)
         (handleRequest : option T -> Request -> outcome unit)
         (transports : list (jsstring * T)) (req : Request)
         (inCharge : option T) (error : JsError) (members : list (jsstring * json)),
    match inCharge with
    | Some transport =>
        route_post isInitializeRequest transports req = Reuse transport
    | None =>
        route_post isInitializeRequest transports req = Initialize T
        /\ connect = Resolved tt
    end ->
    handleRequest inCharge req = Rejected error ->
    body req = JObj members ->
    exists response,
      post_mcp isInitializeRequest connect handleRequest transports req
        = Written T response
      /\ status response = 500%Z
      /\ lookup (payload response) [Key (lit "jsonrpc")] = Some (JStr (lit "2.0"))
      /\ lookup (payload response) [Key (lit "error"); Key (lit "code")]
         = Some (JNum (-32003))
      /\ lookup (payload response) [Key (lit "error"); Key (lit "message")]
         = Some (JStr (lit "Internal server error: "
                         ++ match message error with
                            | Some (c :: r) => c :: r
                            | _ => lit "Unknown error"
                            end))
      /\ lookup (payload response) [Key (lit "id")]
         = Some (match assoc (lit "id") members with
                 | Some id => if truthy id then id else JNull
                 | None => JNull
                 end).
Proof.
  intros T isInit connect handle transports req who error members Hroute Hfail Hbody.
  exists (internal_error req error).
  assert (Hsaid : message_or error (lit "Unknown error")
                  = match message error with
                    | Some (c :: r) => c :: r
                    | _ => lit "Unknown error"
                    end).
  { unfold message_or. destruct (message error) as [[|c r]|]; reflexivity. }
  split.
  - unfold post_mcp. destruct who as [tr|].
    + now rewrite Hroute, Hfail.
    + destruct Hroute as [-> ->]. now rewrite Hfail.
  - split; [reflexivity|]. split; [reflexivity|]. split; [reflexivity|].
    split.
    + simpl. now rewrite Hsaid.
    + unfold internal_error, id_or_null. rewrite Hbody. simpl.
      now destruct (assoc (lit "id") members).
Qed.

Lemma failed_request_is_answered_500_witness :
  exists response,
    post_mcp (fun _ => false) (Resolved tt)
      (fun _ _ => Rejected (mkError (lit "stream closed")))
      [(lit "7f3a", 1%nat)]
      {| session_header := Some (lit "7f3a");
         body := JObj [(lit "id", JNum 0); (lit "method", JStr (lit "ping"))] |}
      = Written nat response
    /\ status response = 500%Z
    /\ lookup (payload response) [Key (lit "error"); Key (lit "message")]
       = Some (JStr (lit "Internal server error: stream closed"))
    /\ lookup (payload response) [Key (lit "id")] = Some JNull.
Proof.
  destruct (failed_request_is_answered_500 nat (fun _ => false) (Resolved tt)
              (fun _ _ => Rejected (mkError (lit "stream closed")))
              [(lit "7f3a", 1%nat)]
              {| session_header := Some (lit "7f3a");
                 body := JObj [(lit "id", JNum 0);
                               (lit "method", JStr (lit "ping"))] |}
              (Some 1%nat) (mkError (lit "stream closed"))
              [(lit "id", JNum 0); (lit "method", JStr (lit "ping"))])
    as (response & Hpost & Hstatus & _ & _ & Hmessage & Hid).
  - vm_compute. reflexivity.
  - reflexivity.
  - reflexivity.
  - exists response. split; [exact Hpost|]. split; [exact Hstatus|].
    split; [exact Hmessage|exact Hid].
Defined.
